(** * Accompaniment RNN sequence generator

    A shallow embedding of
    [magenta/models/accompaniment_rnn/accompaniment_rnn_generator.py]:
    the seconds-to-steps conversion and the [_generate] request pipeline of
    [AccompanimentRnnSequenceGenerator].

    Python floats are IEEE binary64 values, modelled by Rocq's primitive
    floats; Python integers are [Z]; list lengths are [nat].  The calls
    that [_generate] makes into the rest of magenta are parameters of the
    development, and every such call is recorded in a trace so that the
    order of checks and calls can be stated. *)

From Stdlib Require Import String ZArith List Bool Floats.
From Stdlib Require Import QArith Qpower Qround Lia.
From Stdlib Require Import Sorted.
Import ListNotations.

Local Open Scope Z_scope.

Set Warnings "-inexact-float".

(** ** Python values and exceptions *)

Module Py.

(** The arguments of a [%]-formatted message, kept next to the format
    string they are substituted into. *)
Inductive fmt_arg : Type :=
| ArgLen (n : nat)
| ArgInt (z : Z)
| ArgFloat (f : float).

(** The exceptions that can leave [_generate]: the one it raises itself,
    the built-in ones of [assert], [int] and list indexing, and whatever a
    called library function raises, which propagates unchanged. *)
Inductive exn : Type :=
| SequenceGeneratorException (fmt : string) (args : list fmt_arg)
| AssertionError
| OverflowError
| ValueError
| IndexError
| Propagated (what : string).

(** [int(x)] for a float [x]: truncation toward zero; [int] of an
    infinity raises [OverflowError] and of a NaN [ValueError]. *)
Definition int (x : float) : exn + Z :=
  match Prim2SF x with
  | S754_zero _ => inr 0
  | S754_finite s m e =>
      let v := if 0 <=? e then Zpos m * 2 ^ e
               else Z.quot (Zpos m) (2 ^ (- e)) in
      inr (if s then - v else v)
  | S754_infinity _ => inl OverflowError
  | S754_nan => inl ValueError
  end.

(** The rational number that a finite, non-zero binary64 value stands
    for: sign, mantissa and exponent. *)
Definition SF2Q (s : bool) (m : positive) (e : Z) : Q :=
  (inject_Z (if s then Zneg m else Zpos m) * Qpower 2 e)%Q.

(** [math.floor(x)]: the largest integer not above the number [x] stands
    for, with the same two errors as [int].  This is the reading of the
    word "floor" used when the conversion is compared with its
    documentation. *)
Definition floor (x : float) : exn + Z :=
  match Prim2SF x with
  | S754_zero _ => inr 0
  | S754_finite s m e => inr (Qfloor (SF2Q s m e))
  | S754_infinity _ => inl OverflowError
  | S754_nan => inl ValueError
  end.

(** The rational number that a float stands for, 0 for a zero and,
    by convention, for an infinity or a NaN. *)
Definition exact (x : float) : Q :=
  match Prim2SF x with
  | S754_finite s m e => SF2Q s m e
  | _ => 0%Q
  end.

(** Neither a negative number nor minus infinity. *)
Definition not_negative (f : spec_float) : Prop :=
  match f with
  | S754_finite true _ _ | S754_infinity true => False
  | _ => True
  end.

(** [float(n)] for the small non-negative integers that occur here (it
    is exact below [2^53]). *)
Definition float_of_int (n : Z) : float := of_uint63 (Uint63.of_Z n).

(** [max(xs)] on a non-empty list [x :: xs]: the running maximum is
    replaced only by an item that compares strictly greater. *)
Definition max (x : float) (xs : list float) : float :=
  fold_left (fun m y => if (m <? y)%float then y else m) xs x.

(** [[x] * n] for an integer [n]: no element when [n <= 0]. *)
Definition repeat {A : Type} (x : A) (n : Z) : list A :=
  List.repeat x (Z.to_nat n).

(** [d[k] if k in d else default] on a mapping kept as an association
    list. *)
Fixpoint lookup {A : Type} (k : string) (d : list (string * A)) : option A :=
  match d with
  | [] => None
  | (k', v) :: d' => if String.eqb k k' then Some v else lookup k d'
  end.

End Py.

Import Py.

(** ** Data model

    The messages and classes that the generator handles are declared
    elsewhere in magenta; only the fields that the generator reads or
    writes are kept. *)

(** Modelled from the spec: a note of a [NoteSequence] (the protocol
    buffer is not under src/), "tagged with an instrument id, a start
    time, and an end time (continuous, seconds-based)". *)
Module Note.
Record t : Type := mk {
  pitch : Z;
  start_time : float;
  end_time : float;
  instrument : Z
}.
End Note.

Record Tempo : Type := mkTempo { qpm : float }.

(** Modelled from the spec: the [NoteSequence] message, "an ordered
    collection of timed note events [...] plus a tempo". *)
Record NoteSequence : Type := mkNoteSequence {
  notes : list Note.t;
  tempos : list Tempo
}.

(** Modelled from the spec: an input or generate section of the
    generator options, a window with a start time and an end time. *)
Record SequenceSection : Type := mkSequenceSection {
  start_time : float;
  end_time : float
}.

Record ArgValue : Type := mkArgValue { float_value : float }.

(** Modelled from the spec: the [GeneratorOptions] message, with its
    input windows, its output windows and "a mapping of named arguments
    where a temperature float may be present". *)
Record GeneratorOptions : Type := mkGeneratorOptions {
  input_sections : list SequenceSection;
  generate_sections : list SequenceSection;
  args : list (string * ArgValue)
}.

(** Modelled from the spec: [magenta.music.Melody], "a monophonic
    ordered sequence of per-step events [...] tagged with a start_step
    anchoring it in absolute quantized time"; its length is the number of
    its events. *)
Module Melody.
Record t : Type := mk {
  events : list Z;
  start_step : Z
}.
End Melody.

(** Modelled from the spec: [MelodyPair], "an immutable pairing of
    (main_melody, accompaniment)". *)
Record MelodyPair : Type := mkMelodyPair {
  main_melody : Melody.t;
  accompaniment : Melody.t
}.

(** Line 29. *)
Definition STEPS_PER_QUARTER : Z := 4.

(** ** Calls, traces and exceptions *)

(** The calls that leave the generator, as recorded in the trace.  What
    a quantized sequence is made of plays no role here: it is only handed
    from one library call to the next. *)
Inductive call (QuantizedSequence : Type) : Type :=
| call_extract_subsequence (s : NoteSequence) (start_time end_time : float)
| call_from_note_sequence (s : NoteSequence) (steps_per_quarter : Z)
| call_extract_melodies (q : QuantizedSequence)
    (min_bars min_unique_pitches : Z) (gap_bars : float)
    (ignore_polyphonic_notes : bool)
| call_warn (msg : string)
| call_randint (lo hi : Z)
| call_set_length (m : Melody.t) (steps : Z)
| call_generate_melody_pair (num_steps : Z) (primer : MelodyPair)
    (temperature : float)
| call_to_sequence (m : Melody.t) (instrument : Z) (qpm : float).

Arguments call_extract_subsequence {QuantizedSequence}.
Arguments call_from_note_sequence {QuantizedSequence}.
Arguments call_extract_melodies {QuantizedSequence}.
Arguments call_warn {QuantizedSequence}.
Arguments call_randint {QuantizedSequence}.
Arguments call_set_length {QuantizedSequence}.
Arguments call_generate_melody_pair {QuantizedSequence}.
Arguments call_to_sequence {QuantizedSequence}.

(** A computation: the calls made so far, and either the exception that
    ended it or its value. *)
Definition M (E A : Type) : Type := (list E * (exn + A))%type.

Definition ret {E A : Type} (a : A) : M E A := ([], inr a).

Definition raise {E A : Type} (e : exn) : M E A := ([], inl e).

Definition bind {E A B : Type} (m : M E A) (k : A -> M E B) : M E B :=
  match m with
  | (t, inl e) => (t, inl e)
  | (t, inr a) => let (t', r) := k a in ((t ++ t')%list, r)
  end.

(** A computation that is preceded by calls that returned. *)
Definition after {E A : Type} (t : list E) (m : M E A) : M E A :=
  let (t', r) := m in ((t ++ t')%list, r).

(** A library call: recorded, and its exception, if any, propagated. *)
Definition invoke {E A : Type} (c : E) (r : string + A) : M E A :=
  ([c], match r with inl e => inl (Propagated e) | inr a => inr a end).

(** A Python built-in that may raise: not recorded. *)
Definition builtin {E A : Type} (r : exn + A) : M E A := ([], r).

Notation "x <- m ;; k" := (bind m (fun x => k))
  (at level 61, m at next level, right associativity).
Notation "m ;;; k" := (bind m (fun _ => k))
  (at level 61, right associativity).

(** The result of a call in which the generator raised nothing itself:
    a value, or the exception of a library call. *)
Definition raised_by_a_call {A : Type} (r : exn + A) : Prop :=
  match r with
  | inr _ | inl (Propagated _) => True
  | inl _ => False
  end.

(** [assert b]. *)
Definition assert_ {E : Type} (b : bool) : M E unit :=
  if b then ret tt else raise AssertionError.

(** [xs[0]]. *)
Definition first {E A : Type} (xs : list A) : M E A :=
  match xs with
  | x :: _ => ret x
  | [] => raise IndexError
  end.

(** ** What the generator is given

    The parts of magenta that [_generate] uses and that live outside the
    generator's module: two constants and five functions of
    [magenta.music], each of which may raise; the model, with its
    [predictahead_steps] property and its [generate_melody_pair] method;
    and [randint], the value that [random.randint(lo, hi)] returns when
    the generator draws its one random pitch. *)
Record Env : Type := mkEnv {
  QuantizedSequence : Type;
  ExtractionStats : Type;
  DEFAULT_QUARTERS_PER_MINUTE : float;
  MELODY_NO_EVENT : Z;
  extract_subsequence :
    NoteSequence -> float -> float -> string + NoteSequence;
  from_note_sequence : NoteSequence -> Z -> string + QuantizedSequence;
  extract_melodies :
    QuantizedSequence -> Z -> Z -> float -> bool ->
    string + (list Melody.t * ExtractionStats);
  set_length : Melody.t -> Z -> string + Melody.t;
  to_sequence : Melody.t -> Z -> float -> string + NoteSequence;
  model_predictahead_steps : Z;
  generate_melody_pair :
    Z -> MelodyPair -> float -> string + (Melody.t * Melody.t);
  randint : Z -> Z -> Z
}.

(** What the generator is given when [random.randint] returns something
    else: the same library and model with another draw. *)
Definition with_randint (env : Env) (draw : Z -> Z -> Z) : Env :=
  mkEnv (QuantizedSequence env) (ExtractionStats env)
    (DEFAULT_QUARTERS_PER_MINUTE env) (MELODY_NO_EVENT env)
    (extract_subsequence env) (from_note_sequence env)
    (extract_melodies env) (set_length env) (to_sequence env)
    (model_predictahead_steps env) (generate_melody_pair env) draw.

(** ** The generator *)

Section Generator.

Variable env : Env.

Let Call : Type := call (QuantizedSequence env).

Definition _steps_per_quarter : Z := STEPS_PER_QUARTER.

Definition predictahead_steps : Z := model_predictahead_steps env.

(** [_seconds_to_steps]:
    [int(seconds * (qpm / 60.0) * self._steps_per_quarter)]. *)
Definition _seconds_to_steps (seconds qpm : float) : exn + Z :=
  int (seconds * (qpm / 60.0) * float_of_int _steps_per_quarter)%float.

(** Lines 93-96: the end times of the notes of instrument 1 and their
    maximum, [0] when there is none (the integer [0] of the source
    compares with a float as [0.0] does). *)
Definition accompaniment_end_times (input_sequence : NoteSequence)
  : list float :=
  map Note.end_time
    (filter (fun n => Note.instrument n =? 1) (notes input_sequence)).

Definition accompaniment_end_time (input_sequence : NoteSequence) : float :=
  match accompaniment_end_times input_sequence with
  | [] => 0%float
  | x :: xs => Py.max x xs
  end.

(** Lines 117-118: the tempo of the input, or the default one.  (A
    protocol-buffer message is always true, so the test is on [tempos]
    alone.) *)
Definition resolve_qpm (input_sequence : NoteSequence) : float :=
  match tempos input_sequence with
  | t :: _ => qpm t
  | [] => DEFAULT_QUARTERS_PER_MINUTE env
  end.

(** Lines 83-84. *)
Definition resolve_temperature (generator_options : GeneratorOptions)
  : float :=
  match Py.lookup "temperature"%string (args generator_options) with
  | Some v => float_value v
  | None => 1.0%float
  end.

Definition msg_input_sections : string :=
  "This model supports at most one input_sections message, but got %s"%string.
Definition msg_generate_sections : string :=
  "This model supports only 1 generate_sections message, but got %s"%string.
Definition msg_before_accompaniment : string :=
  "Got GenerateSection request for section that is before the end of the accompaniment. This model can only extend sequences. Requested start time: %s, Final note end time: %s"%string.
Definition msg_before_predictahead : string :=
  "Got GenerateSection request for section that is before the earliest possible prediction time. This model can only extend sequences after %d steps, but step %d was requested."%string.
Definition msg_melody_count : string :=
  "Input sequence should have between 1 and 2 extractable melodies. Got %d."%string.
Definition msg_no_accompaniment : string :=
  "No accompaniment was extracted from the priming sequence. Priming will be generated from scratch."%string.

(** Lines 130-147: the main melody, the accompaniment and the step at
    which generation starts. *)
Definition choose_pair (extracted_melodies : list Melody.t) (start_step : Z)
  : M Call (Melody.t * Melody.t * Z) :=
  match extracted_melodies with
  | [main_melody; accompaniment] =>
      ret (main_melody, accompaniment, start_step)
  | [main_melody] =>
      invoke (call_warn msg_no_accompaniment) (inr tt) ;;;
      pitch <- invoke (call_randint 16 54) (inr (randint env 16 54)) ;;
      let accompaniment :=
        Melody.mk
          (Py.repeat (MELODY_NO_EVENT env)
             (start_step - Melody.start_step main_melody) ++ [pitch])
          (Melody.start_step main_melody) in
      ret (main_melody, accompaniment, start_step + 1)
  | _ =>
      raise (SequenceGeneratorException msg_melody_count
               [ArgLen (length extracted_melodies)])
  end.

(** Lines 149-159: the accompaniment is made to end where generation
    starts, the model extends the pair, and the two generated melodies
    are put into one sequence. *)
Definition extend_pair (main_melody accompaniment : Melody.t)
    (start_step end_step : Z) (qpm temperature : float)
  : M Call NoteSequence :=
  accompaniment <-
    invoke
      (call_set_length accompaniment
         (start_step - Melody.start_step accompaniment))
      (set_length env accompaniment
         (start_step - Melody.start_step accompaniment)) ;;
  let primer_pair := mkMelodyPair main_melody accompaniment in
  generated_pair <-
    invoke
      (call_generate_melody_pair (end_step - start_step) primer_pair
         temperature)
      (generate_melody_pair env (end_step - start_step) primer_pair
         temperature) ;;
  sequence <-
    invoke (call_to_sequence (fst generated_pair) 0 qpm)
      (to_sequence env (fst generated_pair) 0 qpm) ;;
  accompaniment_sequence <-
    invoke (call_to_sequence (snd generated_pair) 1 qpm)
      (to_sequence env (snd generated_pair) 1 qpm) ;;
  ret (mkNoteSequence
         (notes sequence ++ notes accompaniment_sequence)
         (tempos sequence)).

(** [_generate], lines 73-159; its last two parts are [choose_pair] and
    [extend_pair] above. *)
Definition _generate (input_sequence : NoteSequence)
    (generator_options : GeneratorOptions) : M Call NoteSequence :=
  if (1 <? length (input_sections generator_options))%nat then
    raise (SequenceGeneratorException msg_input_sections
             [ArgLen (length (input_sections generator_options))])
  else if negb (length (generate_sections generator_options) =? 1)%nat then
    raise (SequenceGeneratorException msg_generate_sections
             [ArgLen (length (generate_sections generator_options))])
  else
    let temperature := resolve_temperature generator_options in
    generate_section <- first (generate_sections generator_options) ;;
    input_sequence <-
      match input_sections generator_options with
      | input_section :: _ =>
          invoke
            (call_extract_subsequence input_sequence
               (start_time input_section) (end_time input_section))
            (extract_subsequence env input_sequence
               (start_time input_section) (end_time input_section))
      | [] => ret input_sequence
      end ;;
    if (start_time generate_section
        <? accompaniment_end_time input_sequence)%float then
      raise (SequenceGeneratorException msg_before_accompaniment
               [ArgFloat (start_time generate_section);
                ArgFloat (accompaniment_end_time input_sequence)])
    else
      quantized_sequence <-
        invoke (call_from_note_sequence input_sequence _steps_per_quarter)
          (from_note_sequence env input_sequence _steps_per_quarter) ;;
      extracted <-
        invoke
          (call_extract_melodies quantized_sequence 0 1 infinity true)
          (extract_melodies env quantized_sequence 0 1 infinity true) ;;
      let extracted_melodies := fst extracted in
      assert_ ((1 <=? length extracted_melodies)%nat
               && (length extracted_melodies <=? 2)%nat) ;;;
      let qpm := resolve_qpm input_sequence in
      start_step <-
        builtin (_seconds_to_steps (start_time generate_section) qpm) ;;
      end_step <-
        builtin (_seconds_to_steps (end_time generate_section) qpm) ;;
      if start_step <? predictahead_steps then
        raise (SequenceGeneratorException msg_before_predictahead
                 [ArgInt predictahead_steps; ArgInt start_step])
      else
        chosen <- choose_pair extracted_melodies start_step ;;
        let '(main_melody, accompaniment, start_step) := chosen in
        extend_pair main_melody accompaniment start_step end_step qpm
          temperature.

(** *** Stages of a call

    The conditions under which a call gets as far as a given line, and
    the calls it has made by then. *)

(** The input restricted to the input section, when there is one. *)
Definition windowed (input_sequence : NoteSequence)
    (generator_options : GeneratorOptions) (windowed_input : NoteSequence)
  : Prop :=
  match input_sections generator_options with
  | input_section :: _ =>
      extract_subsequence env input_sequence
        (start_time input_section) (end_time input_section)
      = inr windowed_input
  | [] => windowed_input = input_sequence
  end.

Definition window_calls (input_sequence : NoteSequence)
    (generator_options : GeneratorOptions) : list Call :=
  match input_sections generator_options with
  | input_section :: _ =>
      [call_extract_subsequence input_sequence
         (start_time input_section) (end_time input_section)]
  | [] => []
  end.

(** The request has at most one input section and the one generate
    section [generate_section], and restricting the input to the input
    section gave [windowed_input]: the call is at line 93. *)
Record Windowed (input_sequence : NoteSequence)
    (generator_options : GeneratorOptions) (generate_section : SequenceSection)
    (windowed_input : NoteSequence) : Prop := {
  one_input_section :
    (length (input_sections generator_options) <= 1)%nat;
  one_generate_section :
    generate_sections generator_options = [generate_section];
  input_windowed : windowed input_sequence generator_options windowed_input
}.

(** Moreover the accompaniment check passed, quantization returned
    [quantized] and extraction returned the melodies [melodies]: the call
    is at line 115. *)
Record Extracted (input_sequence : NoteSequence)
    (generator_options : GeneratorOptions) (generate_section : SequenceSection)
    (windowed_input : NoteSequence) (quantized : QuantizedSequence env)
    (melodies : list Melody.t) : Prop := {
  extracted_windowed :
    Windowed input_sequence generator_options generate_section
      windowed_input;
  after_accompaniment :
    (start_time generate_section
     <? accompaniment_end_time windowed_input)%float = false;
  quantization_returned :
    from_note_sequence env windowed_input _steps_per_quarter
    = inr quantized;
  extraction_returned :
    exists stats,
      extract_melodies env quantized 0 1 infinity true
      = inr (melodies, stats)
}.

Definition priming_calls (input_sequence : NoteSequence)
    (generator_options : GeneratorOptions) (windowed_input : NoteSequence)
    (quantized : QuantizedSequence env) : list Call :=
  window_calls input_sequence generator_options
  ++ [call_from_note_sequence windowed_input _steps_per_quarter;
      call_extract_melodies quantized 0 1 infinity true].

(** Moreover the assertion on the number of melodies passed and the two
    times of the generate section were converted to [start_step] and
    [end_step]: the call is at line 123. *)
Record Converted (input_sequence : NoteSequence)
    (generator_options : GeneratorOptions) (generate_section : SequenceSection)
    (windowed_input : NoteSequence) (quantized : QuantizedSequence env)
    (melodies : list Melody.t) (start_step end_step : Z) : Prop := {
  converted_extracted :
    Extracted input_sequence generator_options generate_section
      windowed_input quantized melodies;
  melody_count : (1 <= length melodies <= 2)%nat;
  start_converted :
    _seconds_to_steps (start_time generate_section)
      (resolve_qpm windowed_input) = inr start_step;
  end_converted :
    _seconds_to_steps (end_time generate_section)
      (resolve_qpm windowed_input) = inr end_step
}.

(** The accompaniment that the generator makes up when only the main
    melody was extracted (lines 138-142). *)
Definition fabricated (main_melody : Melody.t) (start_step : Z)
  : Melody.t :=
  Melody.mk
    (Py.repeat (MELODY_NO_EVENT env)
       (start_step - Melody.start_step main_melody)
     ++ [randint env 16 54])
    (Melody.start_step main_melody).

(** The calls to the model in a trace, and the numbers of steps they
    ask for. *)
Definition is_model_call (c : Call) : bool :=
  match c with
  | call_generate_melody_pair _ _ _ => true
  | _ => false
  end.

Definition model_calls (t : list Call) : list Call :=
  filter is_model_call t.

Definition requested_steps (t : list Call) : list Z :=
  flat_map
    (fun c =>
       match c with
       | call_generate_melody_pair n _ _ => [n]
       | _ => []
       end) t.

(** *** The runs of [extend_pair]

    One rule for each call that may raise, and one for the return. *)
Inductive Extended (main_melody accompaniment : Melody.t)
    (start_step end_step : Z) (qpm temperature : float)
  : list Call -> exn + NoteSequence -> Prop :=
| extended_set_length_raised what :
    set_length env accompaniment
      (start_step - Melody.start_step accompaniment) = inl what ->
    Extended main_melody accompaniment start_step end_step qpm temperature
      [call_set_length accompaniment
         (start_step - Melody.start_step accompaniment)]
      (inl (Propagated what))
| extended_model_raised aligned what :
    set_length env accompaniment
      (start_step - Melody.start_step accompaniment) = inr aligned ->
    generate_melody_pair env (end_step - start_step)
      (mkMelodyPair main_melody aligned) temperature = inl what ->
    Extended main_melody accompaniment start_step end_step qpm temperature
      [call_set_length accompaniment
         (start_step - Melody.start_step accompaniment);
       call_generate_melody_pair (end_step - start_step)
         (mkMelodyPair main_melody aligned) temperature]
      (inl (Propagated what))
| extended_main_raised aligned generated_pair what :
    set_length env accompaniment
      (start_step - Melody.start_step accompaniment) = inr aligned ->
    generate_melody_pair env (end_step - start_step)
      (mkMelodyPair main_melody aligned) temperature
    = inr generated_pair ->
    to_sequence env (fst generated_pair) 0 qpm = inl what ->
    Extended main_melody accompaniment start_step end_step qpm temperature
      [call_set_length accompaniment
         (start_step - Melody.start_step accompaniment);
       call_generate_melody_pair (end_step - start_step)
         (mkMelodyPair main_melody aligned) temperature;
       call_to_sequence (fst generated_pair) 0 qpm]
      (inl (Propagated what))
| extended_accompaniment_raised aligned generated_pair sequence what :
    set_length env accompaniment
      (start_step - Melody.start_step accompaniment) = inr aligned ->
    generate_melody_pair env (end_step - start_step)
      (mkMelodyPair main_melody aligned) temperature
    = inr generated_pair ->
    to_sequence env (fst generated_pair) 0 qpm = inr sequence ->
    to_sequence env (snd generated_pair) 1 qpm = inl what ->
    Extended main_melody accompaniment start_step end_step qpm temperature
      [call_set_length accompaniment
         (start_step - Melody.start_step accompaniment);
       call_generate_melody_pair (end_step - start_step)
         (mkMelodyPair main_melody aligned) temperature;
       call_to_sequence (fst generated_pair) 0 qpm;
       call_to_sequence (snd generated_pair) 1 qpm]
      (inl (Propagated what))
| extended_returned aligned generated_pair sequence
    accompaniment_sequence :
    set_length env accompaniment
      (start_step - Melody.start_step accompaniment) = inr aligned ->
    generate_melody_pair env (end_step - start_step)
      (mkMelodyPair main_melody aligned) temperature
    = inr generated_pair ->
    to_sequence env (fst generated_pair) 0 qpm = inr sequence ->
    to_sequence env (snd generated_pair) 1 qpm
    = inr accompaniment_sequence ->
    Extended main_melody accompaniment start_step end_step qpm temperature
      [call_set_length accompaniment
         (start_step - Melody.start_step accompaniment);
       call_generate_melody_pair (end_step - start_step)
         (mkMelodyPair main_melody aligned) temperature;
       call_to_sequence (fst generated_pair) 0 qpm;
       call_to_sequence (snd generated_pair) 1 qpm]
      (inr (mkNoteSequence
              (notes sequence ++ notes accompaniment_sequence)
              (tempos sequence))).

(** *** The runs of [_generate]

    [Run input_sequence generator_options t r]: the call makes the calls
    [t] and ends with [r].  There is one rule for each way out of the
    function, in the order of the source. *)
Inductive Run (input_sequence : NoteSequence)
    (generator_options : GeneratorOptions)
  : list Call -> exn + NoteSequence -> Prop :=
| run_input_sections :
    (1 < length (input_sections generator_options))%nat ->
    Run input_sequence generator_options []
      (inl (SequenceGeneratorException msg_input_sections
              [ArgLen (length (input_sections generator_options))]))
| run_generate_sections :
    (length (input_sections generator_options) <= 1)%nat ->
    length (generate_sections generator_options) <> 1%nat ->
    Run input_sequence generator_options []
      (inl (SequenceGeneratorException msg_generate_sections
              [ArgLen (length (generate_sections generator_options))]))
| run_window_raised generate_section input_section what :
    generate_sections generator_options = [generate_section] ->
    input_sections generator_options = [input_section] ->
    extract_subsequence env input_sequence
      (start_time input_section) (end_time input_section) = inl what ->
    Run input_sequence generator_options
      (window_calls input_sequence generator_options)
      (inl (Propagated what))
| run_before_accompaniment generate_section windowed_input :
    Windowed input_sequence generator_options generate_section
      windowed_input ->
    (start_time generate_section
     <? accompaniment_end_time windowed_input)%float = true ->
    Run input_sequence generator_options
      (window_calls input_sequence generator_options)
      (inl (SequenceGeneratorException msg_before_accompaniment
              [ArgFloat (start_time generate_section);
               ArgFloat (accompaniment_end_time windowed_input)]))
| run_quantization_raised generate_section windowed_input what :
    Windowed input_sequence generator_options generate_section
      windowed_input ->
    (start_time generate_section
     <? accompaniment_end_time windowed_input)%float = false ->
    from_note_sequence env windowed_input _steps_per_quarter = inl what ->
    Run input_sequence generator_options
      (window_calls input_sequence generator_options
       ++ [call_from_note_sequence windowed_input _steps_per_quarter])
      (inl (Propagated what))
| run_extraction_raised generate_section windowed_input quantized what :
    Windowed input_sequence generator_options generate_section
      windowed_input ->
    (start_time generate_section
     <? accompaniment_end_time windowed_input)%float = false ->
    from_note_sequence env windowed_input _steps_per_quarter
    = inr quantized ->
    extract_melodies env quantized 0 1 infinity true = inl what ->
    Run input_sequence generator_options
      (priming_calls input_sequence generator_options windowed_input
         quantized)
      (inl (Propagated what))
| run_assertion generate_section windowed_input quantized melodies :
    Extracted input_sequence generator_options generate_section
      windowed_input quantized melodies ->
    ~ (1 <= length melodies <= 2)%nat ->
    Run input_sequence generator_options
      (priming_calls input_sequence generator_options windowed_input
         quantized)
      (inl AssertionError)
| run_start_raised generate_section windowed_input quantized melodies
    e :
    Extracted input_sequence generator_options generate_section
      windowed_input quantized melodies ->
    (1 <= length melodies <= 2)%nat ->
    _seconds_to_steps (start_time generate_section)
      (resolve_qpm windowed_input) = inl e ->
    Run input_sequence generator_options
      (priming_calls input_sequence generator_options windowed_input
         quantized)
      (inl e)
| run_end_raised generate_section windowed_input quantized melodies
    start_step e :
    Extracted input_sequence generator_options generate_section
      windowed_input quantized melodies ->
    (1 <= length melodies <= 2)%nat ->
    _seconds_to_steps (start_time generate_section)
      (resolve_qpm windowed_input) = inr start_step ->
    _seconds_to_steps (end_time generate_section)
      (resolve_qpm windowed_input) = inl e ->
    Run input_sequence generator_options
      (priming_calls input_sequence generator_options windowed_input
         quantized)
      (inl e)
| run_before_predictahead generate_section windowed_input quantized
    melodies start_step end_step :
    Converted input_sequence generator_options generate_section
      windowed_input quantized melodies start_step end_step ->
    start_step < predictahead_steps ->
    Run input_sequence generator_options
      (priming_calls input_sequence generator_options windowed_input
         quantized)
      (inl (SequenceGeneratorException msg_before_predictahead
              [ArgInt predictahead_steps; ArgInt start_step]))
| run_extended generate_section windowed_input quantized melodies
    start_step end_step chosen_calls main_melody accompaniment boundary
    t r :
    Converted input_sequence generator_options generate_section
      windowed_input quantized melodies start_step end_step ->
    predictahead_steps <= start_step ->
    choose_pair melodies start_step
    = (chosen_calls, inr (main_melody, accompaniment, boundary)) ->
    extend_pair main_melody accompaniment boundary end_step
      (resolve_qpm windowed_input)
      (resolve_temperature generator_options)
    = (t, r) ->
    Run input_sequence generator_options
      (priming_calls input_sequence generator_options windowed_input
         quantized ++ chosen_calls ++ t)
      r.

End Generator.

(** ** A stub music library and model

    Small stand-ins for the library functions, used to run the generator
    on concrete requests.  A quantized sequence is the note sequence
    itself; one melody is extracted per instrument that has a note, in the
    order of the instrument ids 0, 1, 2. *)

Module Stub.

Definition NO_EVENT : Z := -2.

Definition extract_subsequence (s : NoteSequence) (a b : float)
  : string + NoteSequence :=
  inr (mkNoteSequence
         (filter (fun n => (a <=? Note.start_time n)%float
                           && (Note.start_time n <? b)%float) (notes s))
         (tempos s)).

Definition from_note_sequence (s : NoteSequence) (steps_per_quarter : Z)
  : string + NoteSequence := inr s.

Definition melody_of (q : NoteSequence) (i : Z) : list Melody.t :=
  match filter (fun n => Note.instrument n =? i) (notes q) with
  | [] => []
  | ns => [Melody.mk (map Note.pitch ns) 0]
  end.

Definition extract_melodies (q : NoteSequence)
    (min_bars min_unique_pitches : Z) (gap_bars : float)
    (ignore_polyphonic_notes : bool) : string + (list Melody.t * unit) :=
  inr (melody_of q 0 ++ melody_of q 1 ++ melody_of q 2, tt).

Definition set_length (m : Melody.t) (steps : Z) : string + Melody.t :=
  let n := Z.to_nat steps in
  inr (Melody.mk
         (firstn n (Melody.events m)
          ++ List.repeat NO_EVENT (n - length (Melody.events m)))
         (Melody.start_step m)).

Definition generate_melody_pair (num_steps : Z) (primer : MelodyPair)
    (temperature : float) : string + (Melody.t * Melody.t) :=
  let extend m p :=
    Melody.mk (Melody.events m ++ Py.repeat p num_steps)
      (Melody.start_step m) in
  inr (extend (main_melody primer) 60, extend (accompaniment primer) 48).

Definition to_sequence (m : Melody.t) (instrument : Z) (qpm : float)
  : string + NoteSequence :=
  inr (mkNoteSequence
         (map (fun p => Note.mk p 0 0 instrument)
            (filter (fun p => 0 <=? p) (Melody.events m)))
         [mkTempo qpm]).

Definition randint (lo hi : Z) : Z := lo.

(** The stub library, with a model of the given [predictahead_steps]. *)
Definition env (predictahead : Z) : Env :=
  mkEnv NoteSequence unit 120 NO_EVENT extract_subsequence
    from_note_sequence extract_melodies set_length to_sequence predictahead
    generate_melody_pair randint.

Definition note (instrument pitch : Z) (start_time end_time : float)
  : Note.t := Note.mk pitch start_time end_time instrument.

(** A melody on instrument 0 alone, at the default tempo. *)
Definition solo : NoteSequence :=
  mkNoteSequence [note 0 60 0 0.5; note 0 62 0.5 1] [].

(** Two parts, on instruments 0 and 1. *)
Definition duo : NoteSequence :=
  mkNoteSequence
    [note 0 60 0 0.5; note 1 48 0 1; note 0 62 0.5 1] [mkTempo 120].

(** Three parts, on instruments 0, 1 and 2. *)
Definition trio : NoteSequence :=
  mkNoteSequence
    [note 0 60 0 0.5; note 1 48 0 1; note 2 36 0 1] [mkTempo 120].

(** A request to generate the window from [a] to [b] seconds. *)
Definition request (a b : float) : GeneratorOptions :=
  mkGeneratorOptions [] [mkSequenceSection a b] [].

(** The window from 1 to 2 seconds. *)
Definition window : SequenceSection := mkSequenceSection 1 2.

(** The one melody of [solo] and the two of [duo]. *)
Definition solo_melody : Melody.t := Melody.mk [60; 62] 0.

Definition duo_melody : Melody.t := Melody.mk [60; 62] 0.

Definition duo_accompaniment : Melody.t := Melody.mk [48] 0.



End Stub.

(** ** Further definitions *)

(** The product that [_seconds_to_steps] truncates. *)
Definition steps_product (seconds qpm : float) : float :=
  (seconds * (qpm / 60.0) * float_of_int _steps_per_quarter)%float.

Section Observers.

Variable env : Env.

Let Call : Type := call (QuantizedSequence env).

(** The library call recorded as [c] raised [what]. *)
Definition raised (c : Call) (what : string) : Prop :=
  match c with
  | call_extract_subsequence s a b =>
      extract_subsequence env s a b = inl what
  | call_from_note_sequence s n => from_note_sequence env s n = inl what
  | call_extract_melodies q a b g i =>
      extract_melodies env q a b g i = inl what
  | call_set_length m k => set_length env m k = inl what
  | call_generate_melody_pair n p t =>
      generate_melody_pair env n p t = inl what
  | call_to_sequence m i q => to_sequence env m i q = inl what
  | call_warn _ | call_randint _ _ => False
  end.

(** The library call recorded as [c] returned. *)
Definition returned (c : Call) : Prop :=
  match c with
  | call_extract_subsequence s a b =>
      exists v, extract_subsequence env s a b = inr v
  | call_from_note_sequence s n => exists v, from_note_sequence env s n = inr v
  | call_extract_melodies q a b g i =>
      exists v, extract_melodies env q a b g i = inr v
  | call_set_length m k => exists v, set_length env m k = inr v
  | call_generate_melody_pair n p t =>
      exists v, generate_melody_pair env n p t = inr v
  | call_to_sequence m i q => exists v, to_sequence env m i q = inr v
  | call_warn _ | call_randint _ _ => True
  end.

(** The place of a call in the order of the source: windowing,
    quantization, extraction, the warning and the random draw of the
    one-melody path, alignment, the model, and the two conversions. *)
Definition stage (c : Call) : nat :=
  match c with
  | call_extract_subsequence _ _ _ => 0%nat
  | call_from_note_sequence _ _ => 1%nat
  | call_extract_melodies _ _ _ _ _ => 2%nat
  | call_warn _ => 3%nat
  | call_randint _ _ => 4%nat
  | call_set_length _ _ => 5%nat
  | call_generate_melody_pair _ _ _ => 6%nat
  | call_to_sequence _ i _ => if i =? 0 then 7%nat else 8%nat
  end.

End Observers.

(** ** The generator class and its registry *)

(** What the constructor and [get_generator_map] use of the rest of
    magenta: the table [default_configs] of the model module, given by
    its items (the keys of a dictionary are distinct), the [details] of a
    configuration, the constructor of [AccompanimentRnnModel] and the
    constructor of the base class [BaseSequenceGenerator], both of which
    may raise.  [Base] stands for what the base constructor stores in the
    object. *)
Record ClassEnv : Type := mkClassEnv {
  Config : Type;
  Details : Type;
  Model : Type;
  Checkpoint : Type;
  Bundle : Type;
  Session : Type;
  Base : Type;
  default_configs : list (string * Config);
  details : Config -> Details;
  AccompanimentRnnModel : Config -> string + Model;
  BaseSequenceGenerator_init :
    Model -> Details -> option Checkpoint -> option Bundle -> string + Base
}.

Section GeneratorClass.

Variable cls : ClassEnv.

(** The calls that leave the class and the registry. *)
Inductive class_call : Type :=
| call_AccompanimentRnnModel (config : Config cls)
| call_BaseSequenceGenerator_init (model : Model cls)
    (details : Details cls) (checkpoint : option (Checkpoint cls))
    (bundle : option (Bundle cls)).

(** An [AccompanimentRnnSequenceGenerator] object: what the base
    constructor stored, and the two attributes set on lines 52-53. *)
Record AccompanimentRnnSequenceGenerator : Type := mkGenerator {
  base : Base cls;
  _session : option (Session cls);
  generator_steps_per_quarter : Z
}.

(** [__init__], lines 49-53. *)
Definition __init__ (model : Model cls) (details : Details cls)
    (checkpoint : option (Checkpoint cls)) (bundle : option (Bundle cls))
  : M class_call AccompanimentRnnSequenceGenerator :=
  base <-
    invoke (call_BaseSequenceGenerator_init model details checkpoint bundle)
      (BaseSequenceGenerator_init cls model details checkpoint bundle) ;;
  ret (mkGenerator base None STEPS_PER_QUARTER).

(** [partial(AccompanimentRnnSequenceGenerator, model, details)]: the
    class with its first two arguments bound. *)
Record partial : Type := mkPartial {
  bound_model : Model cls;
  bound_details : Details cls
}.

(** Calling it with the remaining arguments, [None] when left out. *)
Definition call_partial (p : partial)
    (checkpoint : option (Checkpoint cls)) (bundle : option (Bundle cls))
  : M class_call AccompanimentRnnSequenceGenerator :=
  __init__ (bound_model p) (bound_details p) checkpoint bundle.

(** The dictionary comprehension of lines 172-175, over the items of a
    dictionary: for each of them the model is constructed and bound. *)
Fixpoint generator_map_of (items : list (string * Config cls))
  : M class_call (list (string * partial)) :=
  match items with
  | [] => ret []
  | (key, config) :: items' =>
      model <-
        invoke (call_AccompanimentRnnModel config)
          (AccompanimentRnnModel cls config) ;;
      entries <- generator_map_of items' ;;
      ret ((key, mkPartial model (details cls config)) :: entries)
  end.

(** [get_generator_map], lines 162-175. *)
Definition get_generator_map : M class_call (list (string * partial)) :=
  generator_map_of (default_configs cls).

(** The calls of the model constructor in a trace. *)
Definition models_built (t : list class_call) : list (Config cls) :=
  flat_map
    (fun c =>
       match c with
       | call_AccompanimentRnnModel config => [config]
       | _ => []
       end) t.

End GeneratorClass.

Arguments bound_model {cls}.
Arguments bound_details {cls}.
Arguments base {cls}.
Arguments _session {cls}.
Arguments generator_steps_per_quarter {cls}.

(** A stub model module and base class, to build registries with: a
    configuration is a number, a negative one is refused by the model
    constructor, and the base constructor wants exactly one of checkpoint
    and bundle. *)
Module StubClass.

Definition AccompanimentRnnModel (config : Z) : string + Z :=
  if config <? 0 then inl "bad configuration"%string else inr config.

Definition BaseSequenceGenerator_init (model : Z) (details : string)
    (checkpoint bundle : option string)
  : string + (Z * string * option string * option string) :=
  match checkpoint, bundle with
  | Some _, None | None, Some _ => inr (model, details, checkpoint, bundle)
  | _, _ => inl "exactly one of checkpoint or bundle is needed"%string
  end.

Definition cls (default_configs : list (string * Z)) : ClassEnv :=
  mkClassEnv Z string Z string string unit
    (Z * string * option string * option string)
    default_configs (fun _ => "details"%string)
    AccompanimentRnnModel BaseSequenceGenerator_init.

(** A table of two configurations, and one whose second configuration
    is refused. *)
Definition two_configs : list (string * Z) :=
  [("basic"%string, 1); ("lookback"%string, 2)].

Definition bad_configs : list (string * Z) :=
  [("basic"%string, 1); ("broken"%string, -1); ("lookback"%string, 2)].

End StubClass.

(** More stub calls: a library that cannot quantize, and requests with a
    temperature and with an input section. *)
Module StubCalls.

Import Stub.

(** The stub library with a [from_note_sequence] that refuses every
    sequence, and a model that predicts one step ahead. *)
Definition unquantizable : Env :=
  mkEnv NoteSequence unit 120 NO_EVENT extract_subsequence
    (fun _ _ => inl "multiple time signatures"%string) extract_melodies
    set_length to_sequence 1 generate_melody_pair randint.

(** A request for the window from 1 to 2 seconds at temperature 0.5. *)
Definition warm_request : GeneratorOptions :=
  mkGeneratorOptions [] [window]
    [("temperature"%string, mkArgValue 0.5)].

(** A request that reads the first second and generates the next. *)
Definition primed_request : GeneratorOptions :=
  mkGeneratorOptions [mkSequenceSection 0 1] [window] [].

(** [duo] with one more note, after the first second. *)
Definition duo_and_more : NoteSequence :=
  mkNoteSequence (notes duo ++ [note 2 36 1.5 2]) (tempos duo).

End StubCalls.

(** * Properties *)

(** ** Floats *)

Section FloatFacts.

Lemma Qfloor_SF2Q_positive (m : positive) (e : Z) :
  Qfloor (SF2Q false m e)
  = if 0 <=? e then Zpos m * 2 ^ e else Z.quot (Zpos m) (2 ^ (- e)).
Proof.
  unfold SF2Q. destruct (Z.leb_spec 0 e) as [He|He].
  - rewrite <- (Qfloor_Z (Zpos m * 2 ^ e)). apply Qfloor_comp.
    rewrite inject_Z_mult. rewrite Zpower_Qpower by assumption. reflexivity.
  - assert (Hd : 0 < 2 ^ (- e)) by (apply Z.pow_pos_nonneg; lia).
    rewrite Z.quot_div_nonneg by lia.
    destruct (2 ^ (- e)) as [|d|d] eqn:Ed; try lia.
    change (Zpos m / Zpos d) with (Qfloor (Zpos m # d)).
    apply Qfloor_comp.
    rewrite (Qmake_Qdiv (Zpos m) d). rewrite <- Ed.
    rewrite Zpower_Qpower by lia.
    replace e with (- - e) at 1 by lia.
    rewrite Qpower_opp. reflexivity.
Qed.

(** On a float that is not negative, truncation and floor agree. *)
Lemma int_floor (x : float) :
  not_negative (Prim2SF x) -> Py.int x = Py.floor x.
Proof.
  unfold Py.int, Py.floor.
  destruct (Prim2SF x) as [s|s| |[] m e]; try reflexivity.
  - intros [].
  - intros _. rewrite Qfloor_SF2Q_positive. reflexivity.
Qed.

Lemma binary_round_aux_not_negative (mx ex : Z) (lx : location) :
  not_negative (binary_round_aux prec emax false mx ex lx).
Proof.
  unfold binary_round_aux.
  destruct (shr_fexp prec emax mx ex lx) as [mrs' e'].
  destruct (shr_fexp prec emax _ e' loc_Exact) as [mrs'' e''].
  destruct (shr_m mrs''); simpl; auto.
  match goal with |- context [if ?b then _ else _] => destruct b end;
    simpl; auto.
Qed.

Lemma SFmul_not_negative (x y : spec_float) :
  not_negative x -> not_negative y -> not_negative (SF64mul x y).
Proof.
  destruct x as [[]| []| |[] mx ex], y as [[]| []| |[] my ey];
    simpl; intros Hx Hy; try contradiction; auto;
    apply binary_round_aux_not_negative.
Qed.

Lemma SFdiv_not_negative (x : spec_float) (my : positive) (ey : Z) :
  not_negative x -> not_negative (SF64div x (S754_finite false my ey)).
Proof.
  destruct x as [[]| []| |[] mx ex]; simpl; intros Hx;
    try contradiction; auto.
  destruct (SFdiv_core_binary prec emax (Zpos mx) ex (Zpos my) ey)
    as [[mz ez] lz].
  apply binary_round_aux_not_negative.
Qed.

Lemma leb_zero_not_negative (x : float) :
  (0 <=? x)%float = true -> not_negative (Prim2SF x).
Proof.
  rewrite FloatAxioms.leb_spec. change (Prim2SF 0) with (S754_zero false).
  destruct (Prim2SF x) as [[]| []| |[] m e]; simpl; auto; discriminate.
Qed.

Lemma ltb_zero_not_negative (x : float) :
  (0 <? x)%float = true -> not_negative (Prim2SF x).
Proof.
  rewrite FloatAxioms.ltb_spec. change (Prim2SF 0) with (S754_zero false).
  destruct (Prim2SF x) as [[]| []| |[] m e]; simpl; auto; discriminate.
Qed.

(** The product that [_seconds_to_steps] truncates is not negative when
    the seconds are not negative and the tempo is positive. *)
Lemma steps_product_not_negative (seconds qpm : float) :
  (0 <=? seconds)%float = true -> (0 <? qpm)%float = true ->
  not_negative
    (Prim2SF (seconds * (qpm / 60.0) * float_of_int _steps_per_quarter)).
Proof.
  intros Hs Hq. rewrite !FloatAxioms.mul_spec, FloatAxioms.div_spec.
  apply SFmul_not_negative.
  - apply SFmul_not_negative.
    + now apply leb_zero_not_negative.
    + change (Prim2SF 60.0) with (S754_finite false 8444249301319680 (-47)).
      apply SFdiv_not_negative. now apply ltb_zero_not_negative.
  - vm_compute. exact I.
Qed.

(** Strictly less excludes equal. *)
Lemma ltb_not_eqb (x y : float) :
  (x <? y)%float = true -> (x =? y)%float = false.
Proof.
  rewrite FloatAxioms.ltb_spec, FloatAxioms.eqb_spec. unfold SFltb, SFeqb.
  destruct (SFcompare (Prim2SF x) (Prim2SF y)) as [[]|]; congruence.
Qed.

(** The order of floats, on their specification. *)
Ltac compare_cases :=
  repeat match goal with
         | H : context [Z.compare ?a ?b] |- _ =>
             destruct (Z.compare_spec a b)
         | H : context [Pos.compare_cont Eq ?a ?b] |- _ =>
             change (Pos.compare_cont Eq a b) with (Pos.compare a b) in *;
             destruct (Pos.compare_spec a b)
         | |- context [Z.compare ?a ?b] =>
             destruct (Z.compare_spec a b)
         | |- context [Pos.compare_cont Eq ?a ?b] =>
             change (Pos.compare_cont Eq a b) with (Pos.compare a b) in *;
             destruct (Pos.compare_spec a b)
         end;
  simpl in *; try discriminate; try reflexivity; try lia.

Lemma SFltb_trans (a b c : spec_float) :
  SFltb a b = true -> SFltb b c = true -> SFltb a c = true.
Proof.
  unfold SFltb.
  destruct a as [[]|[]| |[] ma ea], b as [[]|[]| |[] mb eb],
    c as [[]|[]| |[] mc ec];
    simpl; try discriminate; try reflexivity; intros Hab Hbc;
    compare_cases.
Qed.

Lemma SFltb_not_ltb_trans (a m y : spec_float) :
  SFltb a y = true -> SFltb m y = false ->
  m <> S754_nan -> y <> S754_nan -> SFltb a m = true.
Proof.
  unfold SFltb.
  destruct a as [[]|[]| |[] ma ea], m as [[]|[]| |[] mb eb],
    y as [[]|[]| |[] mc ec];
    simpl; try discriminate; try reflexivity; try congruence;
    intros Hab Hbc _ _; compare_cases.
Qed.

Lemma not_nan_spec (x : float) :
  is_nan x = false -> Prim2SF x <> S754_nan.
Proof.
  unfold is_nan. rewrite FloatAxioms.eqb_spec. intros H E.
  rewrite E in H. discriminate.
Qed.

Lemma ltb_trans (a b c : float) :
  (a <? b)%float = true -> (b <? c)%float = true ->
  (a <? c)%float = true.
Proof. rewrite !FloatAxioms.ltb_spec. apply SFltb_trans. Qed.

Lemma ltb_not_ltb_trans (a m y : float) :
  is_nan m = false -> is_nan y = false ->
  (a <? y)%float = true -> (m <? y)%float = false ->
  (a <? m)%float = true.
Proof.
  rewrite !FloatAxioms.ltb_spec. intros Hm Hy Hay Hmy.
  eapply SFltb_not_ltb_trans; eauto using not_nan_spec.
Qed.

(** [max] of numbers is above a bound exactly when one of them is. *)
Lemma max_above (s x : float) (xs : list float) :
  Forall (fun y => is_nan y = false) (x :: xs) ->
  (s <? Py.max x xs)%float = true
  <-> Exists (fun y => (s <? y)%float = true) (x :: xs).
Proof.
  revert x. induction xs as [|y xs IH]; intros x Hn.
  - simpl. split.
    + intros H. now constructor.
    + intros H. inversion H as [? ? H'|? ? H']; [exact H'|inversion H'].
  - inversion Hn as [|? ? Hx Hn']; subst.
    inversion Hn' as [|? ? Hy Hn'']; subst.
    change (Py.max x (y :: xs))
      with (Py.max (if (x <? y)%float then y else x) xs).
    destruct (x <? y)%float eqn:Exy.
    + rewrite IH by now constructor. split.
      * intros H. now apply Exists_cons_tl.
      * intros H. inversion H as [? ? H'|? ? H']; subst; [|exact H'].
        apply Exists_cons_hd. eapply ltb_trans; eauto.
    + rewrite IH by now constructor. split.
      * intros H. inversion H as [? ? H'|? ? H']; subst.
        -- now apply Exists_cons_hd.
        -- now apply Exists_cons_tl, Exists_cons_tl.
      * intros H. inversion H as [? ? H'|? ? H']; subst.
        -- now apply Exists_cons_hd.
        -- inversion H' as [? ? H''|? ? H'']; subst.
           ++ apply Exists_cons_hd. eapply ltb_not_ltb_trans; eauto.
           ++ now apply Exists_cons_tl.
Qed.

(** The conversion raises nothing but the two errors of [int]. *)
Lemma seconds_to_steps_raises (seconds qpm : float) (e : exn) :
  _seconds_to_steps seconds qpm = inl e ->
  e = OverflowError \/ e = ValueError.
Proof.
  unfold _seconds_to_steps, Py.int.
  destruct (Prim2SF _); intros [= <-]; auto.
Qed.

End FloatFacts.

(** ** The seconds-to-steps conversion *)

(** C8.  For non-negative seconds and a positive tempo the conversion
    equals the floor of [seconds * (qpm / 60) * 4] as Python computes it
    (both raise when that product is infinite or not a number), with
    [STEPS_PER_QUARTER] equal to 4; when the product is a finite non-zero
    number [v], the result is the integer [n] with [n <= v < n + 1], so
    the value is truncated, not rounded; and 0.9 seconds at 60 quarters
    per minute are 3 steps. *)
Theorem seconds_to_steps_floor (seconds qpm : float) :
  (0 <=? seconds)%float = true -> (0 <? qpm)%float = true ->
  _seconds_to_steps seconds qpm
  = Py.floor (seconds * (qpm / 60) * 4)%float
  /\ STEPS_PER_QUARTER = 4
  /\ (forall s m e,
        Prim2SF (seconds * (qpm / 60) * 4)%float = S754_finite s m e ->
        exists n,
          _seconds_to_steps seconds qpm = inr n
          /\ (inject_Z n <= SF2Q s m e)%Q
          /\ (SF2Q s m e < inject_Z (n + 1))%Q)
  /\ _seconds_to_steps 0.9 60 = inr 3.
Proof.
  intros Hs Hq.
  assert (H : _seconds_to_steps seconds qpm
              = Py.floor (seconds * (qpm / 60) * 4)%float).
  { unfold _seconds_to_steps.
    apply int_floor, steps_product_not_negative; assumption. }
  repeat split.
  - exact H.
  - intros s m e Hp. rewrite H. unfold Py.floor. rewrite Hp.
    exists (Qfloor (SF2Q s m e)). repeat split.
    + apply Qfloor_le.
    + apply Qlt_floor.
Qed.

(** The floor is that of the product as the floats give it, each
    operation rounded: on the rationals that the same arguments stand
    for, the floor of the exact product can be one less. *)
Lemma seconds_to_steps_rounds_product :
  _seconds_to_steps 0.7 150 = inr 7
  /\ Qfloor (Py.exact 0.7 * (Py.exact 150 / 60) * 4)%Q = 6.
Proof. split; vm_compute; reflexivity. Qed.

Lemma seconds_to_steps_floor_witness :
  _seconds_to_steps 1.5 120 = Py.floor (1.5 * (120 / 60) * 4)%float
  /\ STEPS_PER_QUARTER = 4
  /\ (forall s m e,
        Prim2SF (1.5 * (120 / 60) * 4)%float = S754_finite s m e ->
        exists n,
          _seconds_to_steps 1.5 120 = inr n
          /\ (inject_Z n <= SF2Q s m e)%Q
          /\ (SF2Q s m e < inject_Z (n + 1))%Q)
  /\ _seconds_to_steps 0.9 60 = inr 3.
Proof.
  apply (seconds_to_steps_floor 1.5 120); reflexivity.
Defined.

(** ** Running the generator *)

Section MonadFacts.

Context {E A B : Type}.

Lemma bind_ret (a : A) (k : A -> M E B) : bind (ret a) k = k a.
Proof. unfold bind, ret. destruct (k a). reflexivity. Qed.

Lemma bind_raise (e : exn) (k : A -> M E B) : bind (raise e) k = raise e.
Proof. reflexivity. Qed.

Lemma bind_returned (t : list E) (a : A) (k : A -> M E B) :
  bind (t, inr a) k = after t (k a).
Proof. reflexivity. Qed.

Lemma bind_invoke_inr (c : E) (a : A) (k : A -> M E B) :
  bind (invoke c (inr a)) k = after [c] (k a).
Proof. reflexivity. Qed.

Lemma bind_invoke_inl (c : E) (w : string) (k : A -> M E B) :
  bind (invoke c (inl w)) k = ([c], inl (Propagated w)).
Proof. reflexivity. Qed.

Lemma bind_builtin_inr (a : A) (k : A -> M E B) :
  bind (builtin (inr a)) k = k a.
Proof. unfold bind, builtin. destruct (k a). reflexivity. Qed.

Lemma bind_builtin_inl (e : exn) (k : A -> M E B) :
  bind (builtin (inl e)) k = ([], inl e).
Proof. reflexivity. Qed.

End MonadFacts.

Section GeneratorFacts.

Variable env : Env.

Let Call : Type := call (QuantizedSequence env).

Implicit Types (input_sequence windowed_input : NoteSequence)
  (generator_options : GeneratorOptions) (generate_section : SequenceSection)
  (melodies : list Melody.t) (t : list Call).

(** *** How far a call gets *)

Lemma generate_many_input_sections input_sequence generator_options :
  (1 < length (input_sections generator_options))%nat ->
  _generate env input_sequence generator_options
  = ([], inl (SequenceGeneratorException msg_input_sections
                [ArgLen (length (input_sections generator_options))])).
Proof.
  intros H. unfold _generate.
  apply Nat.ltb_lt in H. rewrite H. reflexivity.
Qed.

Lemma generate_not_one_generate_section input_sequence generator_options :
  (length (input_sections generator_options) <= 1)%nat ->
  length (generate_sections generator_options) <> 1%nat ->
  _generate env input_sequence generator_options
  = ([], inl (SequenceGeneratorException msg_generate_sections
                [ArgLen (length (generate_sections generator_options))])).
Proof.
  intros Hi Hg. unfold _generate.
  apply Nat.ltb_ge in Hi. rewrite Hi.
  apply Nat.eqb_neq in Hg. rewrite Hg. reflexivity.
Qed.

#[local] Arguments extend_pair : simpl never.
#[local] Arguments choose_pair : simpl never.

(** *** The runs are those of the function *)

Lemma count_in_range melodies :
  (1 <= length melodies <= 2)%nat ->
  ((1 <=? length melodies)%nat && (length melodies <=? 2)%nat) = true.
Proof.
  intros [H1 H2]. apply andb_true_intro. split; now apply Nat.leb_le.
Qed.

Lemma count_out_of_range melodies :
  ~ (1 <= length melodies <= 2)%nat ->
  ((1 <=? length melodies)%nat && (length melodies <=? 2)%nat) = false.
Proof.
  intros H. apply not_true_is_false. intros Hb.
  apply andb_prop in Hb. destruct Hb as [H1 H2].
  apply Nat.leb_le in H1, H2. auto.
Qed.

(** Evaluates [_generate] up to line 93 for a call that gets there. *)
Ltac enter_window H :=
  let Hi := fresh "Hi" in
  let Hg := fresh "Hg" in
  let Hw := fresh "Hw" in
  destruct H as [Hi Hg Hw];
  unfold _generate, priming_calls, window_calls, windowed in *;
  apply Nat.ltb_ge in Hi; rewrite Hi; rewrite Hg;
  cbn [length Nat.eqb negb first]; rewrite bind_ret;
  match goal with
  | |- context [input_sections ?o] =>
      destruct (input_sections o) as [|? ?];
      [ rewrite bind_ret; symmetry in Hw; destruct Hw
      | rewrite Hw, bind_invoke_inr ]
  end.

(** Evaluates it up to line 115. *)
Ltac enter_extraction H :=
  let Hw := fresh "Hw" in
  let Ha := fresh "Ha" in
  let Hq := fresh "Hq" in
  let He := fresh "He" in
  let st := fresh "stats" in
  destruct H as [Hw Ha Hq [st He]];
  enter_window Hw; rewrite Ha, Hq, bind_invoke_inr, He, bind_invoke_inr;
  cbn [fst snd].

Lemma generate_run input_sequence generator_options t r :
  Run env input_sequence generator_options t r ->
  _generate env input_sequence generator_options = (t, r).
Proof.
  intros HR. destruct HR.
  - now apply generate_many_input_sections.
  - now apply generate_not_one_generate_section.
  - unfold _generate, window_calls. rewrite H, H0. cbn. rewrite H1.
    reflexivity.
  - enter_window H; rewrite H0; reflexivity.
  - enter_window H; rewrite H0, H1; reflexivity.
  - enter_window H; rewrite H0, H1, bind_invoke_inr, H2; reflexivity.
  - enter_extraction H; rewrite (count_out_of_range _ H0); reflexivity.
  - enter_extraction H; rewrite (count_in_range _ H0); cbn [assert_];
      rewrite bind_ret, H1; reflexivity.
  - enter_extraction H; rewrite (count_in_range _ H0); cbn [assert_];
      rewrite bind_ret, H1, bind_builtin_inr, H2; reflexivity.
  - destruct H as [H Hc Hs He].
    apply Z.ltb_lt in H0.
    enter_extraction H; rewrite (count_in_range _ Hc); cbn [assert_];
      rewrite bind_ret, Hs, bind_builtin_inr, He, bind_builtin_inr, H0;
      reflexivity.
  - destruct H as [H Hc Hs He].
    apply Z.ltb_ge in H0.
    enter_extraction H; rewrite (count_in_range _ Hc); cbn [assert_];
      rewrite bind_ret, Hs, bind_builtin_inr, He, bind_builtin_inr, H0;
      rewrite H1, bind_returned, H2; simpl; rewrite <- ?app_assoc;
      reflexivity.
Qed.

(** What [choose_pair] gives for one and for two melodies. *)
Lemma choose_pair_two main_melody accompaniment start_step :
  choose_pair env [main_melody; accompaniment] start_step
  = ([], inr (main_melody, accompaniment, start_step)).
Proof. reflexivity. Qed.

Lemma choose_pair_one main_melody start_step :
  choose_pair env [main_melody] start_step
  = ([call_warn msg_no_accompaniment; call_randint 16 54],
     inr (main_melody, fabricated env main_melody start_step,
          start_step + 1)).
Proof. reflexivity. Qed.

Lemma choose_pair_in_range melodies start_step :
  (1 <= length melodies <= 2)%nat ->
  exists chosen_calls main_melody accompaniment boundary,
    choose_pair env melodies start_step
    = (chosen_calls, inr (main_melody, accompaniment, boundary)).
Proof.
  destruct melodies as [|m [|a [|? ?]]]; simpl; intros [H1 H2]; try lia.
  - rewrite choose_pair_one. eauto.
  - rewrite choose_pair_two. eauto.
Qed.

(** The runs of [extend_pair] are those of the function. *)
Lemma extend_pair_extended main_melody accompaniment start_step end_step
    qpm temperature t r :
  Extended env main_melody accompaniment start_step end_step qpm
    temperature t r ->
  extend_pair env main_melody accompaniment start_step end_step qpm
    temperature = (t, r).
Proof.
  intros HE. unfold extend_pair.
  destruct HE;
    repeat match goal with
           | H : _ = inr _ |- _ => rewrite H, bind_invoke_inr; clear H
           | H : _ = inl _ |- _ => rewrite H, bind_invoke_inl; clear H
           end;
    reflexivity.
Qed.

Lemma extended_total main_melody accompaniment start_step end_step qpm
    temperature :
  exists t r,
    Extended env main_melody accompaniment start_step end_step qpm
      temperature t r.
Proof.
  destruct (set_length env accompaniment
              (start_step - Melody.start_step accompaniment))
    as [what|aligned] eqn:E1; [eauto using Extended|].
  destruct (generate_melody_pair env (end_step - start_step)
              (mkMelodyPair main_melody aligned) temperature)
    as [what|generated_pair] eqn:E2; [eauto using Extended|].
  destruct (to_sequence env (fst generated_pair) 0 qpm)
    as [what|sequence] eqn:E3; [eauto using Extended|].
  destruct (to_sequence env (snd generated_pair) 1 qpm)
    as [what|accompaniment_sequence] eqn:E4; eauto using Extended.
Qed.

Lemma extended_extend_pair main_melody accompaniment start_step end_step
    qpm temperature t r :
  extend_pair env main_melody accompaniment start_step end_step qpm
    temperature = (t, r) ->
  Extended env main_melody accompaniment start_step end_step qpm
    temperature t r.
Proof.
  intros H.
  destruct (extended_total main_melody accompaniment start_step end_step
              qpm temperature) as (t' & r' & HE).
  pose proof (extend_pair_extended _ _ _ _ _ _ _ _ HE) as H'.
  rewrite H in H'. injection H' as -> ->. exact HE.
Qed.

(** Every call has a run. *)
Lemma run_total input_sequence generator_options :
  exists t r, Run env input_sequence generator_options t r.
Proof.
  destruct (le_lt_dec (length (input_sections generator_options)) 1)
    as [Hi|Hi]; [|eauto using Run].
  destruct (Nat.eq_dec (length (generate_sections generator_options)) 1)
    as [Hg|Hg]; [|eauto using Run].
  destruct (generate_sections generator_options)
    as [|generate_section [|? ?]] eqn:Eg; try discriminate. clear Hg.
  assert (Hw : (exists what, Run env input_sequence generator_options
                  (window_calls env input_sequence generator_options)
                  (inl (Propagated what)))
               \/ exists windowed_input,
                    Windowed env input_sequence generator_options
                      generate_section windowed_input).
  { destruct (input_sections generator_options)
      as [|input_section [|? ?]] eqn:Ei; simpl in Hi; try lia.
    - right. exists input_sequence. split; try assumption.
      + rewrite Ei. simpl. lia.
      + unfold windowed. rewrite Ei. reflexivity.
    - destruct (extract_subsequence env input_sequence
                  (start_time input_section) (end_time input_section))
        as [what|windowed_input] eqn:Ew.
      + left. exists what.
        apply (run_window_raised env _ _ generate_section input_section);
          assumption.
      + right. exists windowed_input. split; try assumption.
        * rewrite Ei. simpl. lia.
        * unfold windowed. rewrite Ei. assumption. }
  destruct Hw as [[what Hw]|[windowed_input Hw]]; [eauto|].
  destruct (start_time generate_section
            <? accompaniment_end_time windowed_input)%float eqn:Ea;
    [eauto using Run|].
  destruct (from_note_sequence env windowed_input _steps_per_quarter)
    as [what|quantized] eqn:Eq; [eauto using Run|].
  destruct (extract_melodies env quantized 0 1 infinity true)
    as [what|[melodies stats]] eqn:Ee; [eauto using Run|].
  assert (He : Extracted env input_sequence generator_options
                 generate_section windowed_input quantized melodies)
    by (split; eauto).
  assert (Hc : {(1 <= length melodies <= 2)%nat}
               + {~ (1 <= length melodies <= 2)%nat}).
  { destruct (le_dec 1 (length melodies)), (le_dec (length melodies) 2);
      (left; lia) || (right; lia). }
  destruct Hc as [Hc|Hc]; [|eauto using Run].
  destruct (_seconds_to_steps (start_time generate_section)
              (resolve_qpm env windowed_input))
    as [e|start_step] eqn:Es; [eauto using Run|].
  destruct (_seconds_to_steps (end_time generate_section)
              (resolve_qpm env windowed_input))
    as [e|end_step] eqn:En; [eauto using Run|].
  assert (Hv : Converted env input_sequence generator_options
                 generate_section windowed_input quantized melodies
                 start_step end_step)
    by (split; assumption).
  destruct (Z_lt_le_dec start_step (predictahead_steps env)) as [Hp|Hp];
    [eauto using Run|].
  destruct (choose_pair_in_range melodies start_step Hc)
    as (chosen_calls & main_melody & accompaniment & boundary & Hch).
  destruct (extend_pair env main_melody accompaniment boundary end_step
              (resolve_qpm env windowed_input)
              (resolve_temperature generator_options)) as [t r] eqn:Ex.
  eauto using Run.
Qed.

(** The run of a call is the one that [_generate] computes. *)
Lemma run_generate input_sequence generator_options t r :
  _generate env input_sequence generator_options = (t, r) ->
  Run env input_sequence generator_options t r.
Proof.
  intros H.
  destruct (run_total input_sequence generator_options) as (t' & r' & HR).
  pose proof (generate_run _ _ _ _ HR) as H'.
  rewrite H in H'. injection H' as -> ->. exact HR.
Qed.

(** *** What the traces contain *)

Lemma model_calls_app t t' :
  model_calls env (t ++ t') = (model_calls env t ++ model_calls env t')%list.
Proof. apply filter_app. Qed.

Lemma model_calls_window input_sequence generator_options :
  model_calls env (window_calls env input_sequence generator_options) = [].
Proof.
  unfold window_calls. now destruct (input_sections generator_options).
Qed.

Lemma model_calls_priming input_sequence generator_options windowed_input
    quantized :
  model_calls env
    (priming_calls env input_sequence generator_options windowed_input
       quantized) = [].
Proof.
  unfold priming_calls. rewrite model_calls_app, model_calls_window.
  reflexivity.
Qed.

(** What [choose_pair] returned tells which case it was. *)
Lemma choose_pair_returned melodies start_step chosen_calls main_melody
    accompaniment boundary :
  choose_pair env melodies start_step
  = (chosen_calls, inr (main_melody, accompaniment, boundary)) ->
  (melodies = [main_melody; accompaniment]
   /\ chosen_calls = [] /\ boundary = start_step)
  \/ (melodies = [main_melody]
      /\ chosen_calls = [call_warn msg_no_accompaniment; call_randint 16 54]
      /\ accompaniment = fabricated env main_melody start_step
      /\ boundary = start_step + 1).
Proof.
  destruct melodies as [|m [|a [|? ?]]].
  - discriminate.
  - rewrite choose_pair_one. intros [= <- <- <- <-]. right. auto.
  - rewrite choose_pair_two. intros [= <- <- <- <-]. left. auto.
  - discriminate.
Qed.

Lemma model_calls_chosen melodies start_step chosen_calls main_melody
    accompaniment boundary :
  choose_pair env melodies start_step
  = (chosen_calls, inr (main_melody, accompaniment, boundary)) ->
  model_calls env chosen_calls = [].
Proof.
  intros H. apply choose_pair_returned in H.
  destruct H as [(_ & -> & _)|(_ & -> & _)]; reflexivity.
Qed.

(** [extend_pair] raises nothing of its own, and calls the model at most
    once. *)
Lemma extended_raises_nothing main_melody accompaniment start_step
    end_step qpm temperature t r :
  Extended env main_melody accompaniment start_step end_step qpm
    temperature t r ->
  raised_by_a_call r /\ (length (model_calls env t) <= 1)%nat.
Proof. intros HE. destruct HE; simpl; auto. Qed.

(** The calls of a run that ends with an exception of the generator's
    own do not include the model. *)
Lemma run_model_calls input_sequence generator_options t r :
  Run env input_sequence generator_options t r ->
  (length (model_calls env t) <= 1)%nat
  /\ (~ raised_by_a_call r -> model_calls env t = []).
Proof.
  intros HR. destruct HR;
    rewrite ?model_calls_window, ?model_calls_priming,
      ?model_calls_app, ?model_calls_window;
    simpl; auto.
  apply extended_extend_pair, extended_raises_nothing in H2.
  rewrite model_calls_priming, (model_calls_chosen _ _ _ _ _ _ H1).
  simpl. destruct H2 as [Hr Hl]. split; [exact Hl|]. intros Hn.
  contradiction.
Qed.

(** A call that passes the last check runs [extend_pair] on what
    [choose_pair] returned. *)
Lemma generate_extended input_sequence generator_options generate_section
    windowed_input quantized melodies start_step end_step chosen_calls
    main_melody accompaniment boundary :
  Converted env input_sequence generator_options generate_section
    windowed_input quantized melodies start_step end_step ->
  predictahead_steps env <= start_step ->
  choose_pair env melodies start_step
  = (chosen_calls, inr (main_melody, accompaniment, boundary)) ->
  exists t r,
    Extended env main_melody accompaniment boundary end_step
      (resolve_qpm env windowed_input)
      (resolve_temperature generator_options) t r
    /\ _generate env input_sequence generator_options
       = (priming_calls env input_sequence generator_options
            windowed_input quantized ++ chosen_calls ++ t, r).
Proof.
  intros Hv Hp Hch.
  destruct (extended_total main_melody accompaniment boundary end_step
              (resolve_qpm env windowed_input)
              (resolve_temperature generator_options)) as (t & r & HE).
  exists t, r. split; [exact HE|].
  apply generate_run. eapply run_extended; eauto.
  now apply extend_pair_extended.
Qed.

(** In every run of [extend_pair] the first call sets the length of the
    accompaniment, and the model is asked for the steps from the start
    step to the end step if that call returns. *)
Lemma extended_calls main_melody accompaniment start_step end_step qpm
    temperature t r :
  Extended env main_melody accompaniment start_step end_step qpm
    temperature t r ->
  (exists rest,
     t = call_set_length accompaniment
           (start_step - Melody.start_step accompaniment) :: rest)
  /\ (forall aligned,
        set_length env accompaniment
          (start_step - Melody.start_step accompaniment) = inr aligned ->
        exists rest,
          t = call_set_length accompaniment
                (start_step - Melody.start_step accompaniment)
              :: call_generate_melody_pair (end_step - start_step)
                   (mkMelodyPair main_melody aligned) temperature
              :: rest
          /\ model_calls env rest = []
          /\ requested_steps env t = [end_step - start_step]).
Proof.
  intros HE. destruct HE; (split; [eauto|]); intros aligned' Ha;
    try congruence;
    match goal with
    | H : set_length _ _ _ = inr _ |- _ =>
        rewrite H in Ha; injection Ha as <-
    end;
    eexists; repeat split.
Qed.

Lemma requested_steps_app t t' :
  requested_steps env (t ++ t')
  = (requested_steps env t ++ requested_steps env t')%list.
Proof. apply flat_map_app. Qed.

Lemma requested_steps_priming input_sequence generator_options
    windowed_input quantized :
  requested_steps env
    (priming_calls env input_sequence generator_options windowed_input
       quantized) = [].
Proof.
  unfold priming_calls, window_calls. rewrite requested_steps_app.
  now destruct (input_sections generator_options).
Qed.

(** The generate section and the windowed input of a call are
    determined by the call. *)
Lemma Windowed_unique input_sequence generator_options generate_section
    windowed_input generate_section' windowed_input' :
  Windowed env input_sequence generator_options generate_section
    windowed_input ->
  Windowed env input_sequence generator_options generate_section'
    windowed_input' ->
  generate_section' = generate_section /\ windowed_input' = windowed_input.
Proof.
  intros [_ Hg Hw] [_ Hg' Hw']. unfold windowed in *.
  rewrite Hg in Hg'. injection Hg' as <-. split; [reflexivity|].
  destruct (input_sections generator_options); congruence.
Qed.

(** ** The claims *)

(** C5.  A request with more than one input section, or with a number of
    generate sections other than one, is refused with a
    [SequenceGeneratorException] before any call at all is made, so
    before quantization and melody extraction; the count of input
    sections is checked first, then that of generate sections. *)
Theorem window_counts_checked_first input_sequence generator_options :
  (1 < length (input_sections generator_options))%nat
  \/ length (generate_sections generator_options) <> 1%nat ->
  _generate env input_sequence generator_options
  = ([],
     inl (if (1 <? length (input_sections generator_options))%nat
          then SequenceGeneratorException msg_input_sections
                 [ArgLen (length (input_sections generator_options))]
          else SequenceGeneratorException msg_generate_sections
                 [ArgLen (length (generate_sections generator_options))])).
Proof.
  intros H.
  destruct (Nat.ltb_spec 1 (length (input_sections generator_options)))
    as [Hi|Hi].
  - now apply generate_many_input_sections.
  - destruct H as [H|H]; [lia|].
    now apply generate_not_one_generate_section.
Qed.

(** C9.  In every call the model is invoked at most once, and a call
    that ends with an exception raised by the generator itself, a
    [SequenceGeneratorException] in particular, has not invoked it. *)
Theorem no_inference_on_error input_sequence generator_options t r :
  _generate env input_sequence generator_options = (t, r) ->
  (length (model_calls env t) <= 1)%nat
  /\ (forall fmt args,
        r = inl (SequenceGeneratorException fmt args) ->
        model_calls env t = [])
  /\ (~ raised_by_a_call r -> model_calls env t = []).
Proof.
  intros H. apply run_generate, run_model_calls in H.
  destruct H as [Hl Hn]. repeat split; auto.
  intros fmt args ->. apply Hn. simpl. auto.
Qed.

(** C1.  The sequence that a call returns is the conversion of the
    first generated melody with instrument 0, followed by the notes of
    the conversion of the second generated melody with instrument 1;
    both conversions are made at the tempo resolved from the (windowed)
    input, and the pair is what the one model call returned.  When
    [to_sequence] tags the notes it makes with the instrument it is
    given, every note of the result has instrument 0 or 1. *)
Theorem returned_sequence_is_merged input_sequence generator_options t
    result :
  _generate env input_sequence generator_options = (t, inr result) ->
  exists generate_section windowed_input num_steps primer generated_pair
         sequence accompaniment_sequence,
    Windowed env input_sequence generator_options generate_section
      windowed_input
    /\ model_calls env t
       = [call_generate_melody_pair num_steps primer
            (resolve_temperature generator_options)]
    /\ generate_melody_pair env num_steps primer
         (resolve_temperature generator_options) = inr generated_pair
    /\ to_sequence env (fst generated_pair) 0
         (resolve_qpm env windowed_input) = inr sequence
    /\ to_sequence env (snd generated_pair) 1
         (resolve_qpm env windowed_input) = inr accompaniment_sequence
    /\ result
       = mkNoteSequence (notes sequence ++ notes accompaniment_sequence)
           (tempos sequence)
    /\ ((forall m i q s,
           to_sequence env m i q = inr s ->
           Forall (fun n => Note.instrument n = i) (notes s)) ->
        Forall (fun n => Note.instrument n = 0 \/ Note.instrument n = 1)
          (notes result)).
Proof.
  intros H. apply run_generate in H.
  inversion H; subst.
  match goal with Hx : extend_pair _ _ _ _ _ _ _ = _ |- _ =>
    apply extended_extend_pair in Hx; inversion Hx; subst
  end.
  match goal with
  | Hv : Converted _ _ _ ?gs ?w _ _ _ _,
    Hm : generate_melody_pair _ ?n ?p _ = inr ?gp,
    H0 : to_sequence _ _ 0 _ = inr ?s0,
    H1 : to_sequence _ _ 1 _ = inr ?s1,
    Hch : choose_pair _ _ _ = _ |- _ =>
      exists gs, w, n, p, gp, s0, s1; repeat split; try assumption;
        try apply Hv;
        [ rewrite !model_calls_app, model_calls_priming,
            (model_calls_chosen _ _ _ _ _ _ Hch); reflexivity
        | intros Htag; simpl; apply Forall_app; split;
          [ eapply Forall_impl; [|exact (Htag _ _ _ _ H0)]
          | eapply Forall_impl; [|exact (Htag _ _ _ _ H1)] ];
          simpl; auto ]
  end.
Qed.

(** C2.  When extraction returns no melody, or more than two, the call
    ends at the assertion of line 115 with an [AssertionError], after
    quantization and extraction and nothing else: the
    [SequenceGeneratorException] of lines 145-147, which names the
    count, is not raised. *)
Theorem melody_count_assertion input_sequence generator_options
    generate_section windowed_input quantized melodies :
  Extracted env input_sequence generator_options generate_section
    windowed_input quantized melodies ->
  length melodies = 0%nat \/ (2 < length melodies)%nat ->
  _generate env input_sequence generator_options
  = (priming_calls env input_sequence generator_options windowed_input
       quantized,
     inl AssertionError).
Proof.
  intros He Hc. apply generate_run.
  apply (run_assertion env _ _ generate_section windowed_input quantized
           melodies He).
  lia.
Qed.

(** The exception of lines 145-147 is raised by no call at all. *)
Lemma melody_count_message_unreachable input_sequence generator_options
    t args :
  _generate env input_sequence generator_options
  <> (t, inl (SequenceGeneratorException msg_melody_count args)).
Proof.
  intros H. apply run_generate in H.
  inversion H; subst; try discriminate;
    try match goal with Hs : _seconds_to_steps _ _ = inl _ |- _ =>
      apply seconds_to_steps_raises in Hs; destruct Hs; discriminate
    end.
  match goal with Hx : extend_pair _ _ _ _ _ _ _ = _ |- _ =>
    apply extended_extend_pair, extended_raises_nothing in Hx;
      destruct Hx as [[] _]
  end.
Qed.

(** C7.  For a call that has converted the times of the generate
    section, the generator raises a [SequenceGeneratorException] exactly
    when the converted start step is below [predictahead_steps]; the
    exception reports that converted step, and nothing has been called
    since extraction (no warning, no random draw), so the check is made
    before the start step is adjusted.  A start step equal to
    [predictahead_steps] is accepted. *)
Theorem predictahead_check input_sequence generator_options
    generate_section windowed_input quantized melodies start_step
    end_step :
  Converted env input_sequence generator_options generate_section
    windowed_input quantized melodies start_step end_step ->
  ((exists t fmt args,
      _generate env input_sequence generator_options
      = (t, inl (SequenceGeneratorException fmt args)))
   <-> start_step < predictahead_steps env)
  /\ (start_step < predictahead_steps env ->
      _generate env input_sequence generator_options
      = (priming_calls env input_sequence generator_options
           windowed_input quantized,
         inl (SequenceGeneratorException msg_before_predictahead
                [ArgInt (predictahead_steps env); ArgInt start_step])))
  /\ (start_step = predictahead_steps env ->
      exists t r,
        _generate env input_sequence generator_options = (t, r)
        /\ raised_by_a_call r).
Proof.
  intros Hv.
  assert (Hlt : start_step < predictahead_steps env ->
                _generate env input_sequence generator_options
                = (priming_calls env input_sequence generator_options
                     windowed_input quantized,
                   inl (SequenceGeneratorException msg_before_predictahead
                          [ArgInt (predictahead_steps env);
                           ArgInt start_step]))).
  { intros Hp. apply generate_run. eapply run_before_predictahead; eauto. }
  assert (Hge : predictahead_steps env <= start_step ->
                exists t r,
                  _generate env input_sequence generator_options = (t, r)
                  /\ raised_by_a_call r).
  { intros Hp.
    destruct (choose_pair_in_range melodies start_step (melody_count _ _ _ _ _ _ _ _ _ Hv))
      as (chosen_calls & main_melody & accompaniment & boundary & Hch).
    destruct (generate_extended _ _ _ _ _ _ _ _ _ _ _ _ Hv Hp Hch)
      as (t & r & HE & Hg).
    exists (priming_calls env input_sequence generator_options
              windowed_input quantized ++ chosen_calls ++ t), r.
    split; [exact Hg|]. now apply extended_raises_nothing in HE. }
  repeat split.
  - intros (t & fmt & args & Hg).
    destruct (Z_lt_le_dec start_step (predictahead_steps env))
      as [Hp|Hp]; [exact Hp|].
    destruct (Hge Hp) as (t' & r' & Hg' & Hr).
    rewrite Hg in Hg'. injection Hg' as <- <-. destruct Hr.
  - intros Hp. eauto.
  - exact Hlt.
  - intros Hp. apply Hge. lia.
Qed.

(** C3, for a call that converts both times of the generate section to
    steps and whose start step passes the predict-ahead check.  When
    exactly one melody is extracted, both times convert and the converted
    start step is at least [predictahead_steps], the generator does not
    fail: it raises nothing of its own, and returns if the calls it makes
    return.  It logs a warning, draws one pitch with
    [random.randint(16, 54)], and makes up an accompaniment that starts
    where the main melody starts and consists of
    [start_step - main_melody.start_step] no-event markers followed by
    the pitch.  The pitch is the number drawn, unchanged: each pitch is
    made for exactly one outcome of the draw, the pitch itself, so that
    the pitch is chosen as [randint] chooses, uniformly from 16 to 54
    inclusive.  The accompaniment is then aligned to, and generation
    starts at, the start step plus one. *)
Theorem one_melody_fallback input_sequence generator_options
    generate_section windowed_input quantized main_melody start_step
    end_step :
  Converted env input_sequence generator_options generate_section
    windowed_input quantized [main_melody] start_step end_step ->
  predictahead_steps env <= start_step ->
  let made_up := fabricated env main_melody start_step in
  Melody.start_step made_up = Melody.start_step main_melody
  /\ Melody.events made_up
     = (List.repeat (MELODY_NO_EVENT env)
          (Z.to_nat (start_step - Melody.start_step main_melody))
        ++ [randint env 16 54])%list
  /\ (16 <= randint env 16 54 <= 54 ->
      Forall (fun e => e = MELODY_NO_EVENT env \/ 16 <= e <= 54)
        (Melody.events made_up))
  /\ (forall drawn pitch,
        last
          (Melody.events
             (fabricated (with_randint env (fun _ _ => drawn))
                main_melody start_step))
          (MELODY_NO_EVENT env) = pitch
        <-> drawn = pitch)
  /\ exists t r,
       _generate env input_sequence generator_options
       = (priming_calls env input_sequence generator_options
            windowed_input quantized
          ++ [call_warn msg_no_accompaniment; call_randint 16 54] ++ t,
          r)
       /\ Extended env main_melody made_up (start_step + 1) end_step
            (resolve_qpm env windowed_input)
            (resolve_temperature generator_options) t r
       /\ raised_by_a_call r
       /\ (exists rest,
             t = call_set_length made_up
                   (start_step + 1 - Melody.start_step main_melody)
                 :: rest)
       /\ (forall aligned generated_pair sequence accompaniment_sequence,
             set_length env made_up
               (start_step + 1 - Melody.start_step main_melody)
             = inr aligned ->
             generate_melody_pair env (end_step - (start_step + 1))
               (mkMelodyPair main_melody aligned)
               (resolve_temperature generator_options)
             = inr generated_pair ->
             to_sequence env (fst generated_pair) 0
               (resolve_qpm env windowed_input) = inr sequence ->
             to_sequence env (snd generated_pair) 1
               (resolve_qpm env windowed_input)
             = inr accompaniment_sequence ->
             r = inr (mkNoteSequence
                        (notes sequence ++ notes accompaniment_sequence)
                        (tempos sequence))).
Proof.
  intros Hv Hp made_up.
  split; [reflexivity|]. split; [reflexivity|]. split; [|split].
  { intros Hr. simpl. apply Forall_app. split.
    - apply Forall_forall. intros e He. apply repeat_spec in He. auto.
    - constructor; auto. }
  { intros drawn pitch. unfold fabricated. simpl. rewrite last_last.
    tauto. }
  destruct (generate_extended _ _ _ _ _ _ _ _ _ _ _ _ Hv Hp
              (choose_pair_one main_melody start_step))
    as (t & r & HE & Hg).
  exists t, r. repeat split; try assumption.
  - now apply extended_raises_nothing in HE.
  - apply extended_calls in HE. apply HE.
  - intros aligned generated_pair sequence accompaniment_sequence
      H1 H2 H3 H4.
    pose proof (extended_returned env _ _ _ _ _ _ _ _ _ _ H1 H2 H3 H4)
      as HE'.
    apply extend_pair_extended in HE, HE'.
    pose proof (eq_trans (eq_sym HE) HE') as Heq. now injection Heq.
Qed.



(** C6, for the exception of the accompaniment check.  For a request
    with at most one input section and one generate section, the
    generator raises the exception of lines
    97-102, having called nothing but [extract_subsequence], exactly when
    the accompaniment end time of the (windowed) input is strictly after
    the start time of the generate section; no other line raises that
    message; the accompaniment end time is 0 when there is no note of
    instrument 1, and otherwise, for end times that are numbers, it is
    after the start time exactly when some note of instrument 1 ends
    after it; equal times pass the check. *)
Theorem accompaniment_check input_sequence generator_options
    generate_section windowed_input :
  Windowed env input_sequence generator_options generate_section
    windowed_input ->
  let start := start_time generate_section in
  let raised : M Call NoteSequence :=
    (window_calls env input_sequence generator_options,
     inl (SequenceGeneratorException msg_before_accompaniment
            [ArgFloat start;
             ArgFloat (accompaniment_end_time windowed_input)])) in
  ((start <? accompaniment_end_time windowed_input)%float = true
   <-> _generate env input_sequence generator_options = raised)
  /\ ((exists t args,
         _generate env input_sequence generator_options
         = (t, inl (SequenceGeneratorException msg_before_accompaniment
                      args)))
      -> (start <? accompaniment_end_time windowed_input)%float = true)
  /\ (accompaniment_end_times windowed_input = [] ->
      accompaniment_end_time windowed_input = 0%float)
  /\ (Forall (fun e => is_nan e = false)
        (accompaniment_end_times windowed_input) ->
      accompaniment_end_times windowed_input <> [] ->
      ((start <? accompaniment_end_time windowed_input)%float = true
       <-> Exists (fun e => (start <? e)%float = true)
             (accompaniment_end_times windowed_input)))
  /\ ((start =? accompaniment_end_time windowed_input)%float = true ->
      _generate env input_sequence generator_options <> raised).
Proof.
  intros Hw start raised.
  assert (Hif : (start <? accompaniment_end_time windowed_input)%float
                = true ->
                _generate env input_sequence generator_options = raised).
  { intros Ha. apply generate_run.
    now apply run_before_accompaniment. }
  assert (Honly : (exists t args,
                     _generate env input_sequence generator_options
                     = (t, inl (SequenceGeneratorException
                                  msg_before_accompaniment args)))
                  -> (start <? accompaniment_end_time windowed_input)%float
                     = true).
  { intros (t & args & H). apply run_generate in H.
    inversion H; subst; try discriminate;
      try match goal with Hs : _seconds_to_steps _ _ = inl _ |- _ =>
        apply seconds_to_steps_raises in Hs; destruct Hs; discriminate
      end.
    - match goal with H' : Windowed _ _ _ _ _ |- _ =>
        destruct (Windowed_unique _ _ _ _ _ _ Hw H') as [-> ->]
      end.
      assumption.
    - match goal with Hx : extend_pair _ _ _ _ _ _ _ = _ |- _ =>
        apply extended_extend_pair, extended_raises_nothing in Hx;
          destruct Hx as [[] _]
      end. }
  repeat split.
  - exact Hif.
  - intros H. apply Honly. eauto.
  - exact Honly.
  - unfold accompaniment_end_time. now intros ->.
  - unfold accompaniment_end_time.
    destruct (accompaniment_end_times windowed_input) as [|x xs];
      [congruence|].
    now apply max_above.
  - unfold accompaniment_end_time.
    destruct (accompaniment_end_times windowed_input) as [|x xs];
      [congruence|].
    now apply max_above.
  - intros He H.
    assert (Ha : (start <? accompaniment_end_time windowed_input)%float
                 = true) by (apply Honly; eauto).
    apply ltb_not_eqb in Ha. congruence.
Qed.

(** C10.  With the same converted start and end steps, the model is
    asked for [end_step - (start_step + 1)] steps when one melody was
    extracted and for [end_step - start_step] steps when two were: one
    step fewer.  On the one-melody path nothing is raised by the
    generator once the converted start step has passed the check, so the
    start step plus one is not checked again. *)
Theorem fallback_requests_one_step_fewer
    input_sequence generator_options generate_section windowed_input
    quantized main_melody
    input_sequence' generator_options' generate_section' windowed_input'
    quantized' main_melody' accompaniment'
    start_step end_step aligned aligned' :
  Converted env input_sequence generator_options generate_section
    windowed_input quantized [main_melody] start_step end_step ->
  Converted env input_sequence' generator_options' generate_section'
    windowed_input' quantized' [main_melody'; accompaniment'] start_step
    end_step ->
  predictahead_steps env <= start_step ->
  set_length env (fabricated env main_melody start_step)
    (start_step + 1 - Melody.start_step main_melody) = inr aligned ->
  set_length env accompaniment'
    (start_step - Melody.start_step accompaniment') = inr aligned' ->
  requested_steps env
    (fst (_generate env input_sequence generator_options))
  = [end_step - (start_step + 1)]
  /\ requested_steps env
       (fst (_generate env input_sequence' generator_options'))
     = [end_step - start_step]
  /\ end_step - (start_step + 1) = end_step - start_step - 1
  /\ raised_by_a_call (snd (_generate env input_sequence generator_options)).
Proof.
  intros Hv Hv' Hp Hs Hs'.
  destruct (generate_extended _ _ _ _ _ _ _ _ _ _ _ _ Hv Hp
              (choose_pair_one main_melody start_step))
    as (t & r & HE & Hg).
  destruct (generate_extended _ _ _ _ _ _ _ _ _ _ _ _ Hv' Hp
              (choose_pair_two main_melody' accompaniment' start_step))
    as (t' & r' & HE' & Hg').
  rewrite Hg, Hg'. simpl fst. simpl snd.
  rewrite !requested_steps_app, !requested_steps_priming. simpl.
  pose proof (extended_raises_nothing _ _ _ _ _ _ _ _ HE) as [Hr _].
  apply extended_calls in HE, HE'.
  destruct HE as [_ HE], HE' as [_ HE'].
  destruct (HE _ Hs) as (rest & _ & _ & ->).
  destruct (HE' _ Hs') as (rest' & _ & _ & ->).
  repeat split; try assumption. lia.
Qed.

End GeneratorFacts.

(** * Further properties *)

(** ** More on the seconds-to-steps conversion *)

Section ConversionFacts.

Lemma SFcompare_refl (f : spec_float) :
  f <> S754_nan -> SFcompare f f = Some Eq.
Proof.
  destruct f as [s|[]| |[] m e]; simpl; try congruence; intros _;
    rewrite Z.compare_refl, Pos.compare_cont_refl; reflexivity.
Qed.

(** [is_nan] on the specification. *)
Lemma is_nan_spec (x : float) :
  is_nan x = true <-> Prim2SF x = S754_nan.
Proof.
  unfold is_nan. rewrite FloatAxioms.eqb_spec. unfold SFeqb. split.
  - intros H. destruct (Prim2SF x) as [s|s| |s m e] eqn:E; try reflexivity;
      rewrite SFcompare_refl in H by congruence; discriminate.
  - intros ->. reflexivity.
Qed.

Lemma SF2Q_opp (m : positive) (e : Z) :
  (- SF2Q true m e == SF2Q false m e)%Q.
Proof.
  unfold SF2Q. change (Zneg m) with (- Zpos m).
  rewrite inject_Z_opp. ring.
Qed.

Lemma seconds_to_steps_int (seconds qpm : float) :
  _seconds_to_steps seconds qpm = Py.int (steps_product seconds qpm).
Proof. reflexivity. Qed.

(** X1.  The conversion truncates toward zero: when the product is a
    finite non-zero number [v], the result is the floor of [v] if [v] is
    positive and its ceiling if [v] is negative, so negative seconds are
    rounded up; -0.9 seconds at 60 quarters per minute are -3 steps. *)
Theorem seconds_to_steps_toward_zero (seconds qpm : float) (s : bool)
    (m : positive) (e : Z) :
  Prim2SF (steps_product seconds qpm) = S754_finite s m e ->
  _seconds_to_steps seconds qpm
  = inr (if s then Qceiling (SF2Q s m e) else Qfloor (SF2Q s m e))
  /\ _seconds_to_steps (-0.9) 60 = inr (-3).
Proof.
  intros H. split; [|reflexivity].
  rewrite seconds_to_steps_int. unfold Py.int. rewrite H.
  destruct s.
  - unfold Qceiling. rewrite (Qfloor_comp _ _ (SF2Q_opp m e)).
    rewrite Qfloor_SF2Q_positive. reflexivity.
  - rewrite Qfloor_SF2Q_positive. reflexivity.
Qed.

Lemma seconds_to_steps_toward_zero_witness :
  Prim2SF (steps_product (-1.4) 60)
  = S754_finite true 6305039478318694 (-50)
  /\ _seconds_to_steps (-1.4) 60 = inr (-5).
Proof.
  split; [reflexivity|].
  destruct (seconds_to_steps_toward_zero (-1.4) 60 true
              6305039478318694 (-50) eq_refl) as [H _].
  rewrite H. reflexivity.
Defined.

End ConversionFacts.

Section ConversionErrors.

Lemma Prim2SF_mul_nan_l (x y : float) :
  Prim2SF x = S754_nan -> Prim2SF (x * y) = S754_nan.
Proof. intros H. rewrite FloatAxioms.mul_spec, H. reflexivity. Qed.

Lemma Prim2SF_mul_nan_r (x y : float) :
  Prim2SF y = S754_nan -> Prim2SF (x * y) = S754_nan.
Proof.
  intros H. rewrite FloatAxioms.mul_spec, H.
  now destruct (Prim2SF x).
Qed.

Lemma Prim2SF_div_nan_l (x y : float) :
  Prim2SF x = S754_nan -> Prim2SF (x / y) = S754_nan.
Proof. intros H. rewrite FloatAxioms.div_spec, H. reflexivity. Qed.

Lemma steps_product_nan (seconds qpm : float) :
  is_nan seconds = true \/ is_nan qpm = true ->
  Prim2SF (steps_product seconds qpm) = S754_nan.
Proof.
  unfold steps_product. intros [H|H]; apply is_nan_spec in H.
  - now apply Prim2SF_mul_nan_l, Prim2SF_mul_nan_l.
  - now apply Prim2SF_mul_nan_l, Prim2SF_mul_nan_r, Prim2SF_div_nan_l.
Qed.

(** X2.  The conversion raises [ValueError] when the seconds or the
    tempo are not a number; in general it raises exactly when the product
    is not finite, [ValueError] for a NaN and [OverflowError] for an
    infinity, as for 1e308 seconds at 6000 quarters per minute. *)
Theorem seconds_to_steps_errors (seconds qpm : float) :
  (is_nan seconds = true \/ is_nan qpm = true ->
   _seconds_to_steps seconds qpm = inl ValueError)
  /\ (forall e,
        _seconds_to_steps seconds qpm = inl e
        <-> (Prim2SF (steps_product seconds qpm) = S754_nan
             /\ e = ValueError)
            \/ (exists s,
                  Prim2SF (steps_product seconds qpm) = S754_infinity s
                  /\ e = OverflowError))
  /\ _seconds_to_steps 1e308 6000 = inl OverflowError.
Proof.
  split; [|split; [|reflexivity]].
  - intros H. apply steps_product_nan in H.
    rewrite seconds_to_steps_int. unfold Py.int. now rewrite H.
  - intros e. rewrite seconds_to_steps_int. unfold Py.int.
    destruct (Prim2SF (steps_product seconds qpm)) as [s|s| |s m x];
      split; try discriminate.
    + intros [[H _]|(s' & H & _)]; discriminate.
    + intros [= <-]. right. eauto.
    + intros [[H _]|(s' & _ & ->)]; [discriminate|reflexivity].
    + intros [= <-]. left. auto.
    + intros [[_ ->]|(s' & H & _)]; [reflexivity|discriminate].
    + intros [[H _]|(s' & H & _)]; discriminate.
Qed.

Lemma eqb_zero_spec (x : float) :
  (x =? 0)%float = true -> exists s, Prim2SF x = S754_zero s.
Proof.
  rewrite FloatAxioms.eqb_spec. change (Prim2SF 0) with (S754_zero false).
  destruct (Prim2SF x) as [s|[]| |[] m e]; try discriminate. eauto.
Qed.

Lemma is_finite_spec (x : float) :
  is_finite x = true ->
  (exists s, Prim2SF x = S754_zero s)
  \/ (exists s m e, Prim2SF x = S754_finite s m e).
Proof.
  unfold is_finite, is_infinity. intros H.
  apply negb_true_iff, orb_false_iff in H. destruct H as [Hn Hi].
  rewrite FloatAxioms.eqb_spec, FloatAxioms.abs_spec in Hi.
  change (Prim2SF infinity) with (S754_infinity false) in Hi.
  destruct (Prim2SF x) as [s|s| |s m e] eqn:E; eauto.
  - discriminate.
  - apply not_true_iff_false in Hn. exfalso. apply Hn.
    now apply is_nan_spec.
Qed.

(** X3.  At a tempo of zero, which is what a tempo message without a
    value holds, every finite time is step 0. *)
Theorem seconds_to_steps_zero_tempo (seconds qpm : float) :
  is_finite seconds = true -> (qpm =? 0)%float = true ->
  _seconds_to_steps seconds qpm = inr 0.
Proof.
  intros Hs Hq. rewrite seconds_to_steps_int. unfold Py.int, steps_product.
  rewrite !FloatAxioms.mul_spec, FloatAxioms.div_spec.
  change (Prim2SF 60.0) with (S754_finite false 8444249301319680 (-47)).
  change (Prim2SF (float_of_int _steps_per_quarter))
    with (S754_finite false 4503599627370496 (-50)).
  destruct (eqb_zero_spec qpm Hq) as [sq ->].
  destruct (is_finite_spec seconds Hs) as [[s ->]|(s & m & e & ->)];
    reflexivity.
Qed.

Lemma seconds_to_steps_zero_tempo_witness :
  is_finite 2.5 = true /\ (0 =? 0)%float = true
  /\ _seconds_to_steps 2.5 0 = inr 0.
Proof.
  split; [reflexivity|]. split; [reflexivity|].
  apply (seconds_to_steps_zero_tempo 2.5 0); reflexivity.
Defined.

(** [max] gives one of the numbers, and none of them is above it. *)
Lemma ltb_irrefl (x : float) : (x <? x)%float = false.
Proof.
  rewrite FloatAxioms.ltb_spec. unfold SFltb.
  destruct (Prim2SF x) as [s|[]| |[] m e] eqn:E; try reflexivity;
    rewrite SFcompare_refl by congruence; reflexivity.
Qed.

Lemma max_in (x : float) (xs : list float) : In (Py.max x xs) (x :: xs).
Proof.
  revert x. induction xs as [|y xs IH]; intros x; [now left|].
  change (Py.max x (y :: xs))
    with (Py.max (if (x <? y)%float then y else x) xs).
  destruct (IH (if (x <? y)%float then y else x)) as [H|H].
  - rewrite <- H. destruct (x <? y)%float; simpl; auto.
  - right. now right.
Qed.

Lemma max_not_below (x : float) (xs : list float) :
  Forall (fun y => (Py.max x xs <? y)%float = false) (x :: xs).
Proof.
  assert (G : forall seen m,
             Forall (fun y => (m <? y)%float = false) seen ->
             Forall (fun y => (Py.max m xs <? y)%float = false)
               (seen ++ xs)).
  { induction xs as [|z xs IH]; intros seen m Hs.
    - now rewrite app_nil_r.
    - change (Py.max m (z :: xs))
        with (Py.max (if (m <? z)%float then z else m) xs).
      replace (seen ++ z :: xs)%list with ((seen ++ [z]) ++ xs)%list
        by now rewrite <- app_assoc.
      apply IH. apply Forall_app. split.
      + destruct (m <? z)%float eqn:E; [|exact Hs].
        eapply Forall_impl; [|exact Hs]. intros y Hy. simpl in Hy.
        destruct (z <? y)%float eqn:E'; [|reflexivity].
        rewrite (ltb_trans _ _ _ E E') in Hy. discriminate.
      + constructor; [|constructor].
        destruct (m <? z)%float eqn:E; [apply ltb_irrefl|exact E]. }
  apply (G [x] x). constructor; [apply ltb_irrefl|constructor].
Qed.

(** X4.  The accompaniment end time is 0 for an input without a note of
    instrument 1; otherwise it is the end time of one of these notes, and
    no note of instrument 1 has an end time that compares above it. *)
Theorem accompaniment_end_time_is_last (input_sequence : NoteSequence) :
  ((forall n, In n (notes input_sequence) -> Note.instrument n <> 1)
   /\ accompaniment_end_time input_sequence = 0%float
   \/ exists n,
        In n (notes input_sequence) /\ Note.instrument n = 1
        /\ accompaniment_end_time input_sequence = Note.end_time n)
  /\ forall n,
       In n (notes input_sequence) -> Note.instrument n = 1 ->
       (accompaniment_end_time input_sequence <? Note.end_time n)%float
       = false.
Proof.
  unfold accompaniment_end_time, accompaniment_end_times.
  destruct (map Note.end_time
              (filter (fun n => Note.instrument n =? 1)
                 (notes input_sequence))) as [|x xs] eqn:E.
  - assert (Hn : forall n, In n (notes input_sequence) ->
                           Note.instrument n <> 1).
    { intros n Hin Hi.
      assert (H : In (Note.end_time n)
                    (map Note.end_time
                       (filter (fun n => Note.instrument n =? 1)
                          (notes input_sequence)))).
      { apply in_map, filter_In. split; [exact Hin|]. now apply Z.eqb_eq. }
      rewrite E in H. destruct H. }
    split; [left; auto|]. intros n Hin Hi. now destruct (Hn n Hin).
  - split.
    + right. pose proof (max_in x xs) as H. rewrite <- E in H.
      apply in_map_iff in H. destruct H as (n & Hn & Hin).
      apply filter_In in Hin. destruct Hin as [Hin Hi].
      exists n. repeat split; auto. now apply Z.eqb_eq.
    + intros n Hin Hi. pose proof (max_not_below x xs) as H.
      rewrite <- E in H. rewrite Forall_forall in H. apply H.
      apply in_map, filter_In. split; [exact Hin|]. now apply Z.eqb_eq.
Qed.

End ConversionErrors.

(** ** More on the runs of the generator *)

Section RunFacts.

Variable env : Env.

Let Call : Type := call (QuantizedSequence env).

Implicit Types (input_sequence windowed_input : NoteSequence)
  (generator_options : GeneratorOptions)
  (generate_section : SequenceSection)
  (melodies : list Melody.t) (t : list Call).

Lemma window_calls_returned input_sequence generator_options
    generate_section windowed_input :
  Windowed env input_sequence generator_options generate_section
    windowed_input ->
  Forall (returned env)
    (window_calls env input_sequence generator_options)
  /\ StronglySorted lt
       (map (stage env)
          (window_calls env input_sequence generator_options))
  /\ Forall (fun c => stage env c = 0%nat)
       (window_calls env input_sequence generator_options).
Proof.
  intros [_ _ Hw]. unfold window_calls, windowed in *.
  destruct (input_sections generator_options); simpl.
  - repeat constructor.
  - repeat split.
    + constructor; [|constructor]. simpl. eauto.
    + repeat constructor.
    + repeat constructor.
Qed.

Lemma priming_calls_returned input_sequence generator_options
    generate_section windowed_input quantized melodies :
  Extracted env input_sequence generator_options generate_section
    windowed_input quantized melodies ->
  Forall (returned env)
    (priming_calls env input_sequence generator_options windowed_input
       quantized).
Proof.
  intros [Hw _ Hq [stats He]]. unfold priming_calls.
  apply Forall_app. split; [eapply window_calls_returned; eauto|].
  repeat constructor; simpl; eauto.
Qed.

Lemma chosen_calls_returned melodies start_step chosen_calls main_melody
    accompaniment boundary :
  choose_pair env melodies start_step
  = (chosen_calls, inr (main_melody, accompaniment, boundary)) ->
  Forall (returned env) chosen_calls.
Proof.
  intros H. apply choose_pair_returned in H.
  destruct H as [(_ & -> & _)|(_ & -> & _)]; repeat constructor.
Qed.

(** X5.  An exception of a library call leaves the generator unchanged
    and at once: when a call of the generator ends with it, the last call
    made is the one that raised it and every call before returned; when
    the generator returns or raises an exception of its own, every call
    it made returned. *)
Theorem library_exceptions_propagate input_sequence generator_options t r :
  _generate env input_sequence generator_options = (t, r) ->
  (forall what,
     r = inl (Propagated what) ->
     exists before c,
       t = (before ++ [c])%list /\ raised env c what
       /\ Forall (returned env) before)
  /\ ((forall what, r <> inl (Propagated what)) ->
      Forall (returned env) t).
Proof.
  intros H. apply run_generate in H.
  assert (G : match r with
              | inl (Propagated what) =>
                  exists before c,
                    t = (before ++ [c])%list /\ raised env c what
                    /\ Forall (returned env) before
              | _ => Forall (returned env) t
              end).
  { destruct H;
      try (eapply window_calls_returned; eassumption);
      try (eapply priming_calls_returned; eassumption);
      try (match goal with Hv : Converted _ _ _ _ _ _ _ _ _ |- _ =>
             destruct Hv as [Hv _ _ _]
           end; eapply priming_calls_returned; eassumption).
    - constructor.
    - constructor.
    - exists [].
      unfold window_calls. rewrite H0. simpl. eauto 6.
    - exists (window_calls env input_sequence generator_options).
      eexists. split; [reflexivity|]. split; [exact H1|].
      eapply window_calls_returned; eauto.
    - exists (window_calls env input_sequence generator_options
              ++ [call_from_note_sequence windowed_input
                    _steps_per_quarter])%list.
      eexists. split; [unfold priming_calls; now rewrite <- app_assoc|].
      split; [exact H2|]. apply Forall_app. split.
      + eapply window_calls_returned; eauto.
      + repeat constructor. simpl. eauto.
    - apply seconds_to_steps_raises in H1.
      destruct H1 as [-> | ->]; eapply priming_calls_returned; eauto.
    - apply seconds_to_steps_raises in H2.
      destruct H2 as [-> | ->]; eapply priming_calls_returned; eauto.
    - destruct H as [He _ _ _].
      pose proof (priming_calls_returned _ _ _ _ _ _ He) as Hp.
      pose proof (chosen_calls_returned _ _ _ _ _ _ H1) as Hc.
      apply extended_extend_pair in H2. destruct H2.
      + eexists (priming_calls _ _ _ _ _ ++ chosen_calls)%list. eexists.
        split; [now rewrite <- app_assoc|]. split; [exact H|].
        now apply Forall_app.
      + eexists (priming_calls _ _ _ _ _ ++ chosen_calls ++ [_])%list.
        eexists.
        split; [now rewrite <- !app_assoc|]. split; [exact H2|].
        apply Forall_app; split; [exact Hp|].
        apply Forall_app; split; [exact Hc|].
        repeat constructor; simpl; eauto.
      + eexists (priming_calls _ _ _ _ _ ++ chosen_calls ++ [_; _])%list.
        eexists.
        split; [now rewrite <- !app_assoc|]. split; [exact H3|].
        apply Forall_app; split; [exact Hp|].
        apply Forall_app; split; [exact Hc|].
        repeat constructor; simpl; eauto.
      + eexists (priming_calls _ _ _ _ _ ++ chosen_calls ++ [_; _; _])%list.
        eexists.
        split; [now rewrite <- !app_assoc|]. split; [exact H4|].
        apply Forall_app; split; [exact Hp|].
        apply Forall_app; split; [exact Hc|].
        repeat constructor; simpl; eauto.
      + apply Forall_app; split; [exact Hp|].
        apply Forall_app; split; [exact Hc|].
        repeat constructor; simpl; eauto. }
  split.
  - intros what ->. exact G.
  - intros Hn. destruct r as [[]|]; try exact G.
    now destruct (Hn what).
Qed.

Lemma window_calls_shape input_sequence generator_options :
  window_calls env input_sequence generator_options = []
  \/ exists c,
       window_calls env input_sequence generator_options = [c]
       /\ stage env c = 0%nat.
Proof.
  unfold window_calls. destruct (input_sections generator_options);
    [left|right]; eauto.
Qed.

(** X6.  The calls of the generator are made in the order of the source
    and each at most once: windowing, quantization, extraction, the
    warning, the random draw, the alignment of the accompaniment, the
    model, the conversion of the main melody and that of the
    accompaniment.  So nothing is quantized or extracted twice, and no
    melody is converted before the model has run. *)
Theorem calls_in_source_order input_sequence generator_options :
  StronglySorted lt
    (map (stage env)
       (fst (_generate env input_sequence generator_options))).
Proof.
  destruct (_generate env input_sequence generator_options) as [t r] eqn:H.
  apply run_generate in H. simpl.
  destruct H;
    try match goal with
        | Hch : choose_pair _ _ _ = _, Hx : extend_pair _ _ _ _ _ _ _ = _
          |- _ =>
            apply choose_pair_returned in Hch;
            apply extended_extend_pair in Hx;
            destruct Hch as [(_ & -> & _)|(_ & -> & _)]; destruct Hx
        end;
    unfold priming_calls;
    destruct (window_calls_shape input_sequence generator_options)
      as [Hw|(c & Hw & Hc)];
    rewrite ?Hw; simpl; rewrite ?Hc; repeat constructor.
Qed.

(** X7.  The generator returns a sequence exactly when the request has
    at most one input section and one generate section, windowing
    returns, the accompaniment check passes, quantization and extraction
    return one or two melodies, both times convert, the start step is not
    below [predictahead_steps], and the four last calls return; the
    sequence is then the merge of the two conversions. *)
Theorem generate_returns_iff input_sequence generator_options result :
  snd (_generate env input_sequence generator_options) = inr result
  <-> exists generate_section windowed_input quantized melodies
             start_step end_step chosen_calls main_melody unaligned
             boundary aligned generated_pair sequence
             accompaniment_sequence,
        Converted env input_sequence generator_options generate_section
          windowed_input quantized melodies start_step end_step
        /\ predictahead_steps env <= start_step
        /\ choose_pair env melodies start_step
           = (chosen_calls, inr (main_melody, unaligned, boundary))
        /\ set_length env unaligned
             (boundary - Melody.start_step unaligned) = inr aligned
        /\ generate_melody_pair env (end_step - boundary)
             (mkMelodyPair main_melody aligned)
             (resolve_temperature generator_options) = inr generated_pair
        /\ to_sequence env (fst generated_pair) 0
             (resolve_qpm env windowed_input) = inr sequence
        /\ to_sequence env (snd generated_pair) 1
             (resolve_qpm env windowed_input)
           = inr accompaniment_sequence
        /\ result
           = mkNoteSequence
               (notes sequence ++ notes accompaniment_sequence)
               (tempos sequence).
Proof.
  split.
  - intros H.
    destruct (_generate env input_sequence generator_options)
      as [t r] eqn:Hg.
    simpl in H. subst r. apply run_generate in Hg.
    inversion Hg; subst.
    match goal with Hx : extend_pair _ _ _ _ _ _ _ = _ |- _ =>
      apply extended_extend_pair in Hx; inversion Hx; subst
    end.
    do 14 eexists.
    do 7 (split; [eassumption|]). reflexivity.
  - intros (generate_section & windowed_input & quantized & melodies
            & start_step & end_step & chosen_calls & main_melody
            & unaligned & boundary & aligned & generated_pair & sequence
            & accompaniment_sequence
            & Hv & Hp & Hch & H1 & H2 & H3 & H4 & ->).
    erewrite generate_run; [reflexivity|].
    eapply run_extended; eauto.
    apply extend_pair_extended.
    eapply extended_returned; eauto.
Qed.

Lemma in_window_calls input_sequence generator_options c :
  In c (window_calls env input_sequence generator_options) ->
  stage env c = 0%nat.
Proof.
  destruct (window_calls_shape input_sequence generator_options)
    as [->|(c' & -> & Hc)]; simpl; [tauto|].
  intros [<-|[]]. exact Hc.
Qed.

Lemma in_priming_calls input_sequence generator_options windowed_input
    quantized c :
  In c (priming_calls env input_sequence generator_options windowed_input
          quantized) ->
  (stage env c <= 2)%nat.
Proof.
  unfold priming_calls. intros H. apply in_app_or in H.
  destruct H as [H|[<-|[<-|[]]]]; simpl; try lia.
  apply in_window_calls in H. lia.
Qed.

Lemma in_extended main_melody accompaniment start_step end_step qpm
    temperature t r c :
  Extended env main_melody accompaniment start_step end_step qpm
    temperature t r ->
  In c t -> (5 <= stage env c)%nat.
Proof.
  intros HE. destruct HE; simpl; intuition (subst; simpl; lia).
Qed.

(** Either a call took the one-melody path, and its trace shows it, or
    its trace holds neither a warning nor a random draw. *)
Lemma fallback_or_not input_sequence generator_options :
  (exists generate_section windowed_input quantized main_melody
          start_step end_step t' r',
     Converted env input_sequence generator_options generate_section
       windowed_input quantized [main_melody] start_step end_step
     /\ predictahead_steps env <= start_step
     /\ Extended env main_melody (fabricated env main_melody start_step)
          (start_step + 1) end_step (resolve_qpm env windowed_input)
          (resolve_temperature generator_options) t' r'
     /\ fst (_generate env input_sequence generator_options)
        = (priming_calls env input_sequence generator_options
             windowed_input quantized
           ++ [call_warn msg_no_accompaniment; call_randint 16 54]
           ++ t')%list)
  \/ forall c,
       In c (fst (_generate env input_sequence generator_options)) ->
       stage env c <> 3%nat /\ stage env c <> 4%nat.
Proof.
  destruct (_generate env input_sequence generator_options)
    as [t r] eqn:H.
  apply run_generate in H. simpl.
  destruct H.
  1-2: right; intros c [].
  1-2: right; intros c Hc; apply in_window_calls in Hc; lia.
  1: { right. intros c Hc. apply in_app_or in Hc.
       destruct Hc as [Hc|[<-|[]]]; [|simpl; lia].
       apply in_window_calls in Hc. lia. }
  1-5: right; intros c Hc; apply in_priming_calls in Hc; lia.
  - apply extended_extend_pair in H2.
    apply choose_pair_returned in H1.
    destruct H1 as [(-> & -> & ->)|(-> & -> & -> & ->)].
    + right. intros c Hc. apply in_app_or in Hc.
      destruct Hc as [Hc|Hc]; [apply in_priming_calls in Hc; lia|].
      simpl in Hc. apply (in_extended _ _ _ _ _ _ _ _ _ H2) in Hc. lia.
    + left. do 8 eexists. eauto.
Qed.

(** X8.  The warning is logged and the random pitch drawn exactly in the
    calls that extracted one melody and passed the predict-ahead check,
    and the one is done exactly when the other is; a call that extracted
    two melodies draws nothing.  Every draw has the bounds 16 and 54, and
    every warning the text of the missing accompaniment. *)
Theorem fallback_calls input_sequence generator_options :
  let t := fst (_generate env input_sequence generator_options) in
  (In (call_randint 16 54) t
   <-> exists generate_section windowed_input quantized main_melody
              start_step end_step,
         Converted env input_sequence generator_options generate_section
           windowed_input quantized [main_melody] start_step end_step
         /\ predictahead_steps env <= start_step)
  /\ (In (call_randint 16 54) t <-> In (call_warn msg_no_accompaniment) t)
  /\ (forall lo hi, In (call_randint lo hi) t -> lo = 16 /\ hi = 54)
  /\ (forall msg, In (call_warn msg) t -> msg = msg_no_accompaniment).
Proof.
  intros t. subst t.
  destruct (fallback_or_not input_sequence generator_options)
    as [(gs & w & q & m & ss & es & t' & r' & Hv & Hp & HE & ->)|G].
  - assert (Hr : In (call_randint 16 54)
                   (priming_calls env input_sequence generator_options w q
                    ++ [call_warn msg_no_accompaniment; call_randint 16 54]
                    ++ t')%list)
      by (apply in_or_app; right; simpl; auto).
    assert (Hw : In (call_warn msg_no_accompaniment)
                   (priming_calls env input_sequence generator_options w q
                    ++ [call_warn msg_no_accompaniment; call_randint 16 54]
                    ++ t')%list)
      by (apply in_or_app; right; simpl; auto).
    split; [split; eauto 8|]. split; [split; auto|]. split.
    + intros lo hi Hin. apply in_app_or in Hin.
      destruct Hin as [Hin|[Hin|[Hin|Hin]]]; try discriminate.
      * apply in_priming_calls in Hin. simpl in Hin. lia.
      * injection Hin as <- <-. auto.
      * apply (in_extended _ _ _ _ _ _ _ _ _ HE) in Hin. simpl in Hin. lia.
    + intros msg Hin. apply in_app_or in Hin.
      destruct Hin as [Hin|[Hin|[Hin|Hin]]]; try discriminate.
      * apply in_priming_calls in Hin. simpl in Hin. lia.
      * injection Hin as <-. auto.
      * apply (in_extended _ _ _ _ _ _ _ _ _ HE) in Hin. simpl in Hin. lia.
  - assert (Hn : forall lo hi,
               ~ In (call_randint lo hi)
                   (fst (_generate env input_sequence generator_options))).
    { intros lo hi H. apply G in H. simpl in H. lia. }
    assert (Hm : forall msg,
               ~ In (call_warn msg)
                   (fst (_generate env input_sequence generator_options))).
    { intros msg H. apply G in H. simpl in H. lia. }
    split; [split|].
    + intros H. now apply Hn in H.
    + intros (gs & w & q & m & ss & es & Hv & Hp).
      destruct (generate_extended _ _ _ _ _ _ _ _ _ _ _ _ _ Hv Hp
                  (choose_pair_one env m ss)) as (t' & r' & HE & Hg).
      rewrite Hg. simpl. apply in_or_app. right. simpl. auto.
    + split; [split|split].
      * intros H. now apply Hn in H.
      * intros H. now apply Hm in H.
      * intros lo hi H. now apply Hn in H.
      * intros msg H. now apply Hm in H.
Qed.

Lemma in_extended_model main unaligned start_step end_step qpm
    temperature t r num_steps primer temperature' :
  Extended env main unaligned start_step end_step qpm temperature t r ->
  In (call_generate_melody_pair num_steps primer temperature') t ->
  temperature' = temperature /\ num_steps = end_step - start_step
  /\ main_melody primer = main
  /\ set_length env unaligned (start_step - Melody.start_step unaligned)
     = inr (accompaniment primer).
Proof.
  intros HE. destruct HE; simpl;
    intuition (try discriminate);
    match goal with H : call_generate_melody_pair _ _ _ = _ |- _ =>
      injection H as <- <- <-
    end; auto.
Qed.

(** X9.  The model is given the temperature of the request unchanged:
    the [float_value] of the argument named temperature when the request
    has one, and 1.0 when it has none. *)
Theorem temperature_reaches_model input_sequence generator_options
    num_steps primer temperature :
  In (call_generate_melody_pair num_steps primer temperature)
    (fst (_generate env input_sequence generator_options)) ->
  temperature = resolve_temperature generator_options
  /\ (Py.lookup "temperature"%string (args generator_options) = None ->
      temperature = 1%float)
  /\ (forall v,
        Py.lookup "temperature"%string (args generator_options) = Some v ->
        temperature = float_value v).
Proof.
  intros Hin.
  assert (H : temperature = resolve_temperature generator_options).
  { destruct (_generate env input_sequence generator_options)
      as [t r] eqn:H.
    apply run_generate in H. simpl in Hin.
    destruct H.
    1-2: destruct Hin.
    1-2: apply in_window_calls in Hin; simpl in Hin; lia.
    1: { apply in_app_or in Hin.
         destruct Hin as [Hin|[Hin|[]]]; [|discriminate].
         apply in_window_calls in Hin. simpl in Hin. lia. }
    1-5: apply in_priming_calls in Hin; simpl in Hin; lia.
    apply extended_extend_pair in H2.
    apply choose_pair_returned in H1.
    apply in_app_or in Hin. destruct Hin as [Hin|Hin];
      [apply in_priming_calls in Hin; simpl in Hin; lia|].
    apply in_app_or in Hin. destruct Hin as [Hin|Hin].
    - destruct H1 as [(_ & -> & _)|(_ & -> & _)]; simpl in Hin;
        intuition discriminate.
    - now apply (in_extended_model _ _ _ _ _ _ _ _ _ _ _ H2) in Hin. }
  split; [exact H|]. unfold resolve_temperature in H.
  split.
  - intros E. now rewrite E in H.
  - intros v E. now rewrite E in H.
Qed.

(** X10.  With an input section, the call depends on the input sequence
    only through what [extract_subsequence] makes of it: two inputs with
    the same windowed sequence give the same result and, after the
    windowing call, the same calls.  The notes and tempos outside the
    window are not read. *)
Theorem only_the_window_is_read input_sequence input_sequence'
    generator_options input_section rest :
  input_sections generator_options = input_section :: rest ->
  extract_subsequence env input_sequence
    (start_time input_section) (end_time input_section)
  = extract_subsequence env input_sequence'
      (start_time input_section) (end_time input_section) ->
  snd (_generate env input_sequence generator_options)
  = snd (_generate env input_sequence' generator_options)
  /\ tl (fst (_generate env input_sequence generator_options))
     = tl (fst (_generate env input_sequence' generator_options)).
Proof.
  intros Hs He. unfold _generate. rewrite Hs.
  destruct (1 <? length (input_section :: rest))%nat; [split; reflexivity|].
  destruct (negb (length (generate_sections generator_options) =? 1)%nat);
    [split; reflexivity|].
  destruct (generate_sections generator_options) as [|generate_section ?];
    [split; reflexivity|].
  unfold first. rewrite !bind_ret, He.
  destruct (extract_subsequence env input_sequence'
              (start_time input_section) (end_time input_section))
    as [what|windowed_input]; [split; reflexivity|].
  rewrite !bind_invoke_inr. unfold after.
  match goal with |- context [let (_, _) := ?k in _] => destruct k end.
  split; reflexivity.
Qed.

(** X11.  The end of the generate section is not compared with its
    start: a call whose end step is not after its start step is not
    refused by the generator.  With the main melody, the accompaniment
    and the boundary that the call has chosen, it asks [set_length] for
    the boundary minus the start step of the accompaniment and, when that
    returns, it asks the model, with what it returned as the primer
    accompaniment, for the end step minus the boundary: a number of steps
    that is zero or negative, and the only one the model is asked for. *)
Theorem end_step_not_checked input_sequence generator_options
    generate_section windowed_input quantized melodies start_step
    end_step :
  Converted env input_sequence generator_options generate_section
    windowed_input quantized melodies start_step end_step ->
  predictahead_steps env <= start_step ->
  end_step <= start_step ->
  raised_by_a_call (snd (_generate env input_sequence generator_options))
  /\ exists chosen_calls main_melody unaligned boundary,
       choose_pair env melodies start_step
       = (chosen_calls, inr (main_melody, unaligned, boundary))
       /\ start_step <= boundary
       /\ In (call_set_length unaligned
                (boundary - Melody.start_step unaligned))
            (fst (_generate env input_sequence generator_options))
       /\ forall aligned,
            set_length env unaligned
              (boundary - Melody.start_step unaligned) = inr aligned ->
            In (call_generate_melody_pair (end_step - boundary)
                  (mkMelodyPair main_melody aligned)
                  (resolve_temperature generator_options))
              (fst (_generate env input_sequence generator_options))
            /\ requested_steps env
                 (fst (_generate env input_sequence generator_options))
               = [end_step - boundary]
            /\ end_step - boundary <= 0.
Proof.
  intros Hv Hp Hle.
  destruct (choose_pair_in_range env melodies start_step
              (melody_count _ _ _ _ _ _ _ _ _ Hv))
    as (chosen_calls & main & unaligned & boundary & Hch).
  destruct (generate_extended _ _ _ _ _ _ _ _ _ _ _ _ _ Hv Hp Hch)
    as (t & r & HE & Hg).
  rewrite Hg. simpl. split; [now apply extended_raises_nothing in HE|].
  exists chosen_calls, main, unaligned, boundary.
  pose proof (choose_pair_returned _ _ _ _ _ _ _ Hch) as Hc.
  assert (Hb : start_step <= boundary)
    by (destruct Hc as [(_ & _ & ->)|(_ & _ & _ & ->)]; lia).
  split; [exact Hch|]. split; [exact Hb|].
  apply extended_calls in HE. destruct HE as [(rest & Ht) HE]. split.
  - rewrite Ht. apply in_or_app. right. apply in_or_app. right.
    left. reflexivity.
  - intros aligned Hs. destruct (HE _ Hs) as (rest' & Ht' & _ & Hq).
    split; [|split; [|lia]].
    + rewrite Ht'. apply in_or_app. right. apply in_or_app. right.
      right. left. reflexivity.
    + rewrite !requested_steps_app, requested_steps_priming, Hq.
      destruct Hc as [(_ & -> & _)|(_ & -> & _)]; reflexivity.
Qed.

(** X12.  On the one-melody path the alignment is asked for the start
    step plus one minus the start step of the main melody.  When the main
    melody does not start after the start step, the accompaniment made up
    has exactly that length, with the drawn pitch as its last event, at
    the start step; when it starts later, the accompaniment made up is
    the pitch alone and the length asked for is zero or negative. *)
Theorem seed_pitch_position input_sequence generator_options
    generate_section windowed_input quantized main start_step end_step :
  Converted env input_sequence generator_options generate_section
    windowed_input quantized [main] start_step end_step ->
  predictahead_steps env <= start_step ->
  let made_up := fabricated env main start_step in
  let asked := start_step + 1 - Melody.start_step main in
  In (call_set_length made_up asked)
    (fst (_generate env input_sequence generator_options))
  /\ (Melody.start_step main <= start_step ->
      Z.of_nat (length (Melody.events made_up)) = asked
      /\ nth_error (Melody.events made_up)
           (Z.to_nat (start_step - Melody.start_step main))
         = Some (randint env 16 54))
  /\ (start_step < Melody.start_step main ->
      Melody.events made_up = [randint env 16 54] /\ asked <= 0).
Proof.
  intros Hv Hp made_up asked. split; [|split].
  - destruct (generate_extended _ _ _ _ _ _ _ _ _ _ _ _ _ Hv Hp
                (choose_pair_one env main start_step))
      as (t & r & HE & Hg).
    rewrite Hg. simpl. apply in_or_app. right. right. right.
    apply extended_calls in HE. destruct HE as [(rest & ->) _].
    now left.
  - intros Hle. subst made_up asked. unfold fabricated, Py.repeat. simpl.
    split.
    + rewrite length_app, repeat_length. simpl. lia.
    + rewrite nth_error_app2 by (rewrite repeat_length; lia).
      rewrite repeat_length, Nat.sub_diag. reflexivity.
  - intros Hlt. subst made_up asked. unfold fabricated, Py.repeat. simpl.
    replace (Z.to_nat (start_step - Melody.start_step main)) with 0%nat
      by lia.
    split; [reflexivity|lia].
Qed.

Lemma ltb_nan_l (x y : float) : is_nan x = true -> (x <? y)%float = false.
Proof.
  intros H. apply is_nan_spec in H.
  rewrite FloatAxioms.ltb_spec, H. reflexivity.
Qed.

(** X13.  A start time that is not a number passes the accompaniment
    check, since no comparison with it holds; the call goes on to
    quantize and extract, and ends with the [ValueError] of [int] when
    the start time is converted. *)
Theorem nan_start_time input_sequence generator_options generate_section
    windowed_input quantized melodies stats :
  Windowed env input_sequence generator_options generate_section
    windowed_input ->
  is_nan (start_time generate_section) = true ->
  from_note_sequence env windowed_input _steps_per_quarter
  = inr quantized ->
  extract_melodies env quantized 0 1 infinity true
  = inr (melodies, stats) ->
  (1 <= length melodies <= 2)%nat ->
  _generate env input_sequence generator_options
  = (priming_calls env input_sequence generator_options windowed_input
       quantized,
     inl ValueError).
Proof.
  intros Hw Hn Hq He Hc. apply generate_run.
  eapply run_start_raised; eauto.
  - split; eauto. now apply ltb_nan_l.
  - rewrite seconds_to_steps_int. unfold Py.int.
    rewrite steps_product_nan by auto. reflexivity.
Qed.

Lemma no_accompaniment_end_time (s : NoteSequence) :
  (forall n, In n (notes s) -> Note.instrument n <> 1) ->
  accompaniment_end_time s = 0%float.
Proof.
  intros H. unfold accompaniment_end_time, accompaniment_end_times.
  replace (filter (fun n => Note.instrument n =? 1) (notes s))
    with (@nil Note.t); [reflexivity|].
  symmetry. induction (notes s) as [|n ns IH]; [reflexivity|].
  simpl. destruct (Z.eqb_spec (Note.instrument n) 1) as [E|E].
  - exfalso. apply (H n); simpl; auto.
  - apply IH. intros n' Hn'. apply H. simpl. auto.
Qed.

(** X14.  Without a note of instrument 1 the accompaniment is taken to
    end at 0, so a negative start time is refused by the accompaniment
    check, with 0 reported as the final note end time. *)
Theorem negative_start_without_accompaniment input_sequence
    generator_options generate_section windowed_input :
  Windowed env input_sequence generator_options generate_section
    windowed_input ->
  (forall n, In n (notes windowed_input) -> Note.instrument n <> 1) ->
  (start_time generate_section <? 0)%float = true ->
  _generate env input_sequence generator_options
  = (window_calls env input_sequence generator_options,
     inl (SequenceGeneratorException msg_before_accompaniment
            [ArgFloat (start_time generate_section); ArgFloat 0])).
Proof.
  intros Hw Hn Hs. apply generate_run.
  rewrite <- (no_accompaniment_end_time windowed_input Hn).
  apply run_before_accompaniment; [exact Hw|].
  now rewrite (no_accompaniment_end_time windowed_input Hn).
Qed.

End RunFacts.

(** ** The registry *)

Section RegistryFacts.

Variable cls : ClassEnv.

(** An entry of the registry is bound to the model and the details of
    an item of the table. *)
Definition entry_of (item : string * Config cls)
    (entry : string * partial cls) : Prop :=
  fst entry = fst item
  /\ AccompanimentRnnModel cls (snd item) = inr (bound_model (snd entry))
  /\ bound_details (snd entry) = details cls (snd item).

Lemma generator_map_of_returned (items : list (string * Config cls)) t
    entries :
  generator_map_of cls items = (t, inr entries) ->
  t = map (call_AccompanimentRnnModel cls) (map snd items)
  /\ Forall2 entry_of items entries.
Proof.
  revert t entries. induction items as [|[key config] items IH];
    intros t entries.
  - intros [= <- <-]. split; constructor.
  - simpl. unfold bind, invoke.
    destruct (AccompanimentRnnModel cls config) as [what|model] eqn:Em;
      [discriminate|].
    destruct (generator_map_of cls items) as [t' [e|entries']];
      [discriminate|].
    simpl. intros [= <- <-].
    destruct (IH _ _ eq_refl) as [-> HF]. rewrite ?app_nil_r.
    split; [reflexivity|].
    constructor; [|exact HF]. repeat split. exact Em.
Qed.

Lemma generator_map_of_raised (before : list (string * Config cls)) key
    config after what :
  Forall (fun item => exists model,
            AccompanimentRnnModel cls (snd item) = inr model) before ->
  AccompanimentRnnModel cls config = inl what ->
  generator_map_of cls (before ++ (key, config) :: after)
  = (map (call_AccompanimentRnnModel cls) (map snd before)
     ++ [call_AccompanimentRnnModel cls config],
     inl (Propagated what)).
Proof.
  intros Hb Hc. induction before as [|[k c] before IH]; simpl.
  - unfold bind, invoke. rewrite Hc. reflexivity.
  - inversion Hb as [|? ? [model Hm] Hb']; subst. simpl in Hm.
    unfold bind at 1. unfold invoke. rewrite Hm, (IH Hb'). reflexivity.
Qed.

Lemma lookup_entry (items : list (string * Config cls)) entries key
    config :
  Forall2 entry_of items entries ->
  Py.lookup key items = Some config ->
  exists p,
    Py.lookup key entries = Some p
    /\ AccompanimentRnnModel cls config = inr (bound_model p)
    /\ bound_details p = details cls config.
Proof.
  intros HF. induction HF as [|[k c] [k' p] items entries He HF IH];
    simpl; [discriminate|].
  destruct He as (Hk & Hm & Hd). simpl in Hk, Hm, Hd. subst k'.
  destruct (String.eqb key k); [|exact IH].
  intros [= <-]. eauto.
Qed.

(** X15.  When [get_generator_map] returns, it has constructed one model
    for each configuration of the table, in the order of the table and
    nothing else; the map has the keys of the table, and the entry of a
    key is bound to the model constructed from the configuration of that
    key and to the details of that configuration. *)
Theorem generator_map_entries t entries :
  get_generator_map cls = (t, inr entries) ->
  t = map (call_AccompanimentRnnModel cls)
        (map snd (default_configs cls))
  /\ models_built cls t = map snd (default_configs cls)
  /\ map fst entries = map fst (default_configs cls)
  /\ forall key config,
       Py.lookup key (default_configs cls) = Some config ->
       exists p,
         Py.lookup key entries = Some p
         /\ AccompanimentRnnModel cls config = inr (bound_model p)
         /\ bound_details p = details cls config.
Proof.
  intros H. apply generator_map_of_returned in H. destruct H as [-> HF].
  split; [reflexivity|]. split; [|split].
  - induction (default_configs cls) as [|[k c] l IH] in |- *;
      simpl; [reflexivity|]. now rewrite IH.
  - clear -HF. induction HF as [|item entry items es He HF IH];
      simpl; [reflexivity|].
    destruct He as (-> & _). now rewrite IH.
  - intros key config. now apply lookup_entry.
Qed.

(** X16.  When the model constructor raises for a configuration of the
    table, [get_generator_map] raises the same exception and returns no
    map: the models of the configurations before it have been
    constructed, those of the configurations after it are not. *)
Theorem generator_map_raises before key config after what :
  default_configs cls = (before ++ (key, config) :: after)%list ->
  Forall (fun item => exists model,
            AccompanimentRnnModel cls (snd item) = inr model) before ->
  AccompanimentRnnModel cls config = inl what ->
  get_generator_map cls
  = (map (call_AccompanimentRnnModel cls) (map snd before)
     ++ [call_AccompanimentRnnModel cls config],
     inl (Propagated what))
  /\ models_built cls (fst (get_generator_map cls))
     = (map snd before ++ [config])%list.
Proof.
  intros Hd Hb Hc. unfold get_generator_map. rewrite Hd.
  rewrite (generator_map_of_raised before key config after what Hb Hc).
  split; [reflexivity|]. simpl. unfold models_built.
  rewrite flat_map_app. simpl. f_equal.
  clear. induction before as [|[k c] l IH]; simpl; [reflexivity|].
  now rewrite IH.
Qed.

(** X17.  A generator made from an entry of the registry is made by the
    base constructor alone, called with the model and the details bound
    in the entry and the checkpoint and bundle given: no model is
    constructed then, so all the generators of an entry share the model
    constructed with the registry.  The generator has no session, and
    its steps per quarter are [STEPS_PER_QUARTER], the 4 that [_generate]
    and [_seconds_to_steps] use; an exception of the base constructor is
    raised unchanged. *)
Theorem registry_generators t entries key p checkpoint bundle :
  get_generator_map cls = (t, inr entries) ->
  In (key, p) entries ->
  (exists config,
     In (key, config) (default_configs cls)
     /\ AccompanimentRnnModel cls config = inr (bound_model p)
     /\ bound_details p = details cls config)
  /\ fst (call_partial cls p checkpoint bundle)
     = [call_BaseSequenceGenerator_init cls (bound_model p)
          (bound_details p) checkpoint bundle]
  /\ models_built cls (fst (call_partial cls p checkpoint bundle)) = []
  /\ (forall g,
        snd (call_partial cls p checkpoint bundle) = inr g ->
        BaseSequenceGenerator_init cls (bound_model p) (bound_details p)
          checkpoint bundle = inr (base g)
        /\ _session g = None
        /\ generator_steps_per_quarter g = _steps_per_quarter
        /\ generator_steps_per_quarter g = 4)
  /\ (forall what,
        BaseSequenceGenerator_init cls (bound_model p) (bound_details p)
          checkpoint bundle = inl what ->
        snd (call_partial cls p checkpoint bundle)
        = inl (Propagated what)).
Proof.
  intros H Hin. apply generator_map_of_returned in H.
  destruct H as [_ HF]. split.
  - clear -HF Hin.
    induction HF as [|[k c] entry items es He HF IH]; [destruct Hin|].
    destruct Hin as [->|Hin].
    + destruct He as (Hk & Hm & Hd). simpl in Hk, Hm, Hd. subst k.
      exists c. simpl. auto.
    + destruct (IH Hin) as (config & Hc & Hm). exists config. simpl. auto.
  - unfold call_partial, __init__, bind, invoke.
    destruct (BaseSequenceGenerator_init cls (bound_model p)
                (bound_details p) checkpoint bundle) as [what|b];
      simpl.
    + split; [reflexivity|]. split; [reflexivity|]. split.
      * intros g [=].
      * now intros what' [= <-].
    + split; [reflexivity|]. split; [reflexivity|]. split.
      * intros g [= <-]. repeat split.
      * intros what [=].
Qed.

End RegistryFacts.

(** * Concrete calls *)

(** ** Concrete calls, on the stub library *)

Module StubFacts.

Import Stub.

Lemma windowed_request (predictahead : Z) (s : NoteSequence) (a b : float) :
  Windowed (env predictahead) s (request a b) (mkSequenceSection a b) s.
Proof. split; simpl; auto. reflexivity. Qed.

Lemma extracted_request (predictahead : Z) (s : NoteSequence) (a b : float) :
  (a <? accompaniment_end_time s)%float = false ->
  Extracted (env predictahead) s (request a b) (mkSequenceSection a b) s s
    (melody_of s 0 ++ melody_of s 1 ++ melody_of s 2).
Proof.
  intros H. split.
  - apply windowed_request.
  - exact H.
  - reflexivity.
  - exists tt. reflexivity.
Qed.

Lemma solo_converted (predictahead : Z) :
  Converted (env predictahead) solo (request 1 2) window solo solo
    [solo_melody] 8 16.
Proof.
  split; try reflexivity.
  - apply (extracted_request predictahead solo 1 2). reflexivity.
  - simpl. lia.
Qed.

Lemma duo_converted (predictahead : Z) :
  Converted (env predictahead) duo (request 1 2) window duo duo
    [duo_melody; duo_accompaniment] 8 16.
Proof.
  split; try reflexivity.
  - apply (extracted_request predictahead duo 1 2). reflexivity.
  - simpl. lia.
Qed.

(** The stub [to_sequence] tags its notes with the instrument given. *)
Lemma to_sequence_tags (m : Melody.t) (i : Z) (q : float)
    (s : NoteSequence) :
  to_sequence m i q = inr s ->
  Forall (fun n => Note.instrument n = i) (notes s).
Proof.
  intros [= <-]. simpl. apply Forall_forall. intros n Hn.
  apply in_map_iff in Hn. destruct Hn as (p & <- & _). reflexivity.
Qed.


End StubFacts.

(** ** The claims on concrete calls *)

Import Stub StubFacts.

(** Two parts, generation from 1 to 2 seconds: the call returns, and all
    its notes are on instruments 0 and 1. *)
Lemma returned_sequence_is_merged_witness :
  (exists result,
     snd (_generate (env 1) duo (request 1 2)) = inr result)
  /\ forall result,
       snd (_generate (env 1) duo (request 1 2)) = inr result ->
       Forall (fun n => Note.instrument n = 0 \/ Note.instrument n = 1)
         (notes result).
Proof.
  split.
  - eexists. reflexivity.
  - intros result H.
    destruct (returned_sequence_is_merged (env 1) duo (request 1 2)
                (fst (_generate (env 1) duo (request 1 2))) result)
      as (gs & w & n & primer & gp & s0 & s1 & _ & _ & _ & _ & _ & _ & Ht).
    + rewrite <- H. apply surjective_pairing.
    + apply Ht. exact to_sequence_tags.
Defined.

(** Three parts: the assertion fails. *)
Lemma melody_count_assertion_witness :
  Extracted (env 1) trio (request 1 2) window trio trio
    [Melody.mk [60] 0; Melody.mk [48] 0; Melody.mk [36] 0]
  /\ snd (_generate (env 1) trio (request 1 2)) = inl AssertionError.
Proof.
  assert (He : Extracted (env 1) trio (request 1 2) window trio trio
                 [Melody.mk [60] 0; Melody.mk [48] 0; Melody.mk [36] 0]).
  { apply (extracted_request 1 trio 1 2). reflexivity. }
  split; [exact He|].
  rewrite (melody_count_assertion (env 1) trio (request 1 2) window trio
             trio _ He).
  - reflexivity.
  - right. simpl. lia.
Defined.

(** C3 does not hold for every start step, nor for every end time.  One
    melody is extracted from [solo]; generation from 0 seconds is refused
    by a model that predicts one step ahead, and generation from 1 second
    without end, whose start step 8 passes that check, ends with the
    [OverflowError] of [int]. *)
Lemma one_melody_refused :
  (Extracted (env 1) solo (request 0 2) (mkSequenceSection 0 2) solo solo
     [solo_melody]
   /\ _generate (env 1) solo (request 0 2)
      = (priming_calls (env 1) solo (request 0 2) solo solo,
         inl (SequenceGeneratorException msg_before_predictahead
                [ArgInt 1; ArgInt 0])))
  /\ (Extracted (env 1) solo (request 1 infinity)
        (mkSequenceSection 1 infinity) solo solo [solo_melody]
      /\ _seconds_to_steps 1 (resolve_qpm (env 1) solo) = inr 8
      /\ predictahead_steps (env 1) <= 8
      /\ _generate (env 1) solo (request 1 infinity)
         = (priming_calls (env 1) solo (request 1 infinity) solo solo,
            inl OverflowError)).
Proof.
  split; [split|split; [|split; [|split]]].
  - apply (extracted_request 1 solo 0 2). reflexivity.
  - reflexivity.
  - apply (extracted_request 1 solo 1 infinity). reflexivity.
  - reflexivity.
  - unfold predictahead_steps. simpl. lia.
  - reflexivity.
Defined.

(** One part, generation from 1 to 2 seconds: the call returns. *)
Lemma one_melody_fallback_witness :
  Converted (env 1) solo (request 1 2) window solo solo [solo_melody] 8 16
  /\ predictahead_steps (env 1) <= 8
  /\ exists t r,
       _generate (env 1) solo (request 1 2) = (t, r)
       /\ raised_by_a_call r.
Proof.
  assert (Hp : predictahead_steps (env 1) <= 8)
    by (unfold predictahead_steps; simpl; lia).
  split; [apply solo_converted|]. split; [exact Hp|].
  destruct (one_melody_fallback (env 1) solo (request 1 2) window solo solo
              solo_melody 8 16 (solo_converted 1) Hp)
    as (_ & _ & _ & _ & t & r & Hg & _ & Hr & _).
  eauto.
Defined.



(** Two input sections: refused at once. *)
Lemma window_counts_checked_first_witness :
  (1 < length (input_sections
                 (mkGeneratorOptions [window; window] [window] [])))%nat
  /\ _generate (env 1) duo
       (mkGeneratorOptions [window; window] [window] [])
     = ([], inl (SequenceGeneratorException msg_input_sections [ArgLen 2])).
Proof.
  split; [simpl; lia|].
  apply (window_counts_checked_first (env 1) duo
           (mkGeneratorOptions [window; window] [window] [])).
  left. simpl. lia.
Defined.

(** C6 does not hold of every [SequenceGeneratorException]: [solo] has
    no note of instrument 1, so its accompaniment end time, 0, is not
    after the start time 0; yet the call raises one, at the later check
    of the start step. *)
Lemma refused_without_accompaniment :
  ~ ((exists t fmt args,
        _generate (env 1) solo (request 0 2)
        = (t, inl (SequenceGeneratorException fmt args)))
     <-> (start_time (mkSequenceSection 0 2) <? accompaniment_end_time solo)%float
         = true).
Proof.
  intros [H _].
  assert (Hr : exists t fmt args,
             _generate (env 1) solo (request 0 2)
             = (t, inl (SequenceGeneratorException fmt args))).
  { do 3 eexists. reflexivity. }
  apply H in Hr. discriminate Hr.
Defined.

(** Two parts, generation from half a second on, while the accompaniment
    lasts one second: refused. *)
Lemma accompaniment_check_witness :
  Windowed (env 1) duo (request 0.5 2) (mkSequenceSection 0.5 2) duo
  /\ _generate (env 1) duo (request 0.5 2)
     = ([], inl (SequenceGeneratorException msg_before_accompaniment
                   [ArgFloat 0.5; ArgFloat 1])).
Proof.
  split; [apply windowed_request|].
  destruct (accompaniment_check (env 1) duo (request 0.5 2)
              (mkSequenceSection 0.5 2) duo (windowed_request 1 duo 0.5 2))
    as ([H _] & _).
  apply H. reflexivity.
Defined.

(** Two parts, generation from step 8, for a model that predicts 9 steps
    ahead: refused. *)
Lemma predictahead_check_witness :
  Converted (env 9) duo (request 1 2) window duo duo
    [duo_melody; duo_accompaniment] 8 16
  /\ _generate (env 9) duo (request 1 2)
     = (priming_calls (env 9) duo (request 1 2) duo duo,
        inl (SequenceGeneratorException msg_before_predictahead
               [ArgInt 9; ArgInt 8])).
Proof.
  split; [apply duo_converted|].
  destruct (predictahead_check (env 9) duo (request 1 2) window duo duo
              _ 8 16 (duo_converted 9)) as (_ & H & _).
  apply H. unfold predictahead_steps. simpl. lia.
Defined.

(** C7 does not hold for every end time.  With two parts, a model that
    predicts 9 steps ahead and generation from 1 second without end, the
    start time converts to step 8, below 9; but the conversion of the end
    time comes before the check, and the call ends with the
    [OverflowError] of [int] and not with a
    [SequenceGeneratorException]. *)
Lemma predictahead_check_preempted :
  Extracted (env 9) duo (request 1 infinity)
    (mkSequenceSection 1 infinity) duo duo [duo_melody; duo_accompaniment]
  /\ _seconds_to_steps 1 (resolve_qpm (env 9) duo) = inr 8
  /\ 8 < predictahead_steps (env 9)
  /\ _generate (env 9) duo (request 1 infinity)
     = (priming_calls (env 9) duo (request 1 infinity) duo duo,
        inl OverflowError).
Proof.
  split; [|split; [|split]].
  - apply (extracted_request 9 duo 1 infinity). reflexivity.
  - reflexivity.
  - unfold predictahead_steps. simpl. lia.
  - reflexivity.
Defined.

(** The refused call above has not invoked the model. *)
Lemma no_inference_on_error_witness :
  exists fmt args,
    snd (_generate (env 9) duo (request 1 2))
    = inl (SequenceGeneratorException fmt args)
    /\ model_calls (env 9) (fst (_generate (env 9) duo (request 1 2)))
       = [].
Proof.
  destruct (no_inference_on_error (env 9) duo (request 1 2) _ _
              (surjective_pairing _)) as (_ & H & _).
  do 2 eexists. split; [reflexivity|].
  eapply H. reflexivity.
Defined.

(** From 1 to 2 seconds, steps 8 to 16: 7 steps are asked for [solo] and
    8 for [duo]. *)
Lemma fallback_requests_one_step_fewer_witness :
  requested_steps (env 1) (fst (_generate (env 1) solo (request 1 2)))
  = [7]
  /\ requested_steps (env 1) (fst (_generate (env 1) duo (request 1 2)))
     = [8].
Proof.
  destruct (fallback_requests_one_step_fewer (env 1)
              solo (request 1 2) window solo solo solo_melody
              duo (request 1 2) window duo duo duo_melody
              duo_accompaniment 8 16
              (Melody.mk [-2; -2; -2; -2; -2; -2; -2; -2; 16] 0)
              (Melody.mk [48; -2; -2; -2; -2; -2; -2; -2] 0)
              (solo_converted 1) (duo_converted 1))
    as (H1 & H2 & _); try reflexivity.
  - unfold predictahead_steps. simpl. lia.
  - split; assumption.
Defined.


(** ** The further properties on concrete calls *)

Import StubCalls.

(** A library that cannot quantize: the call ends with the exception of
    [from_note_sequence], which is the last call made. *)
Lemma library_exceptions_propagate_witness :
  exists before c,
    fst (_generate unquantizable duo (request 1 2)) = (before ++ [c])%list
    /\ raised unquantizable c "multiple time signatures"
    /\ Forall (returned unquantizable) before.
Proof.
  destruct (library_exceptions_propagate unquantizable duo (request 1 2)
              _ _ (surjective_pairing _)) as [H _].
  apply (H "multiple time signatures"%string). reflexivity.
Defined.

(** A request at temperature 0.5: the model is called with 0.5. *)
Lemma temperature_reaches_model_witness :
  exists primer,
    In (call_generate_melody_pair 8 primer 0.5%float)
      (fst (_generate (env 1) duo warm_request))
    /\ forall v,
         Py.lookup "temperature"%string (args warm_request) = Some v ->
         0.5%float = float_value v.
Proof.
  exists (mkMelodyPair duo_melody
            (Melody.mk [48; -2; -2; -2; -2; -2; -2; -2] 0)).
  assert (Hin : In (call_generate_melody_pair 8
                      (mkMelodyPair duo_melody
                         (Melody.mk [48; -2; -2; -2; -2; -2; -2; -2] 0))
                      0.5%float)
                  (fst (_generate (env 1) duo warm_request))).
  { vm_compute. do 3 right. left. reflexivity. }
  split; [exact Hin|].
  apply (temperature_reaches_model (env 1) duo warm_request _ _ _ Hin).
Defined.

(** A note after the input section changes nothing but the argument of
    the windowing call. *)
Lemma only_the_window_is_read_witness :
  snd (_generate (env 1) duo primed_request)
  = snd (_generate (env 1) duo_and_more primed_request)
  /\ tl (fst (_generate (env 1) duo primed_request))
     = tl (fst (_generate (env 1) duo_and_more primed_request)).
Proof.
  apply (only_the_window_is_read (env 1) duo duo_and_more primed_request
           (mkSequenceSection 0 1) []); reflexivity.
Defined.

(** Two parts, generation from 1 to 1 second: the call returns, and the
    model has been asked for 0 steps, once. *)
Lemma end_step_not_checked_witness :
  (exists result,
     snd (_generate (env 1) duo (request 1 1)) = inr result)
  /\ In (call_generate_melody_pair 0
           (mkMelodyPair duo_melody
              (Melody.mk [48; -2; -2; -2; -2; -2; -2; -2] 0))
           1%float)
       (fst (_generate (env 1) duo (request 1 1)))
  /\ requested_steps (env 1) (fst (_generate (env 1) duo (request 1 1)))
     = [0].
Proof.
  assert (Hc : Converted (env 1) duo (request 1 1) (mkSequenceSection 1 1)
                 duo duo [duo_melody; duo_accompaniment] 8 8).
  { split; try reflexivity.
    - apply (extracted_request 1 duo 1 1). reflexivity.
    - simpl. lia. }
  assert (Hp : predictahead_steps (env 1) <= 8)
    by (unfold predictahead_steps; simpl; lia).
  assert (Hle : 8 <= 8) by lia.
  destruct (end_step_not_checked (env 1) duo (request 1 1) _ _ _ _ 8 8
              Hc Hp Hle)
    as (_ & chosen_calls & main & unaligned & boundary & Hch & _ & _
        & Hs).
  injection Hch as <- <- <- <-.
  destruct (Hs (Melody.mk [48; -2; -2; -2; -2; -2; -2; -2] 0) eq_refl)
    as (Hin & Hq & _).
  split; [eexists; reflexivity|]. split; [exact Hin|exact Hq].
Defined.

(** One part, generation from 1 to 2 seconds: the accompaniment made up
    has 9 events, the last of them the pitch drawn. *)
Lemma seed_pitch_position_witness :
  In (call_set_length (fabricated (env 1) solo_melody 8) 9)
    (fst (_generate (env 1) solo (request 1 2)))
  /\ Z.of_nat (length (Melody.events (fabricated (env 1) solo_melody 8)))
     = 9
  /\ nth_error (Melody.events (fabricated (env 1) solo_melody 8)) 8
     = Some 16.
Proof.
  assert (Hp : predictahead_steps (env 1) <= 8)
    by (unfold predictahead_steps; simpl; lia).
  destruct (seed_pitch_position (env 1) solo (request 1 2) window solo solo
              solo_melody 8 16 (solo_converted 1) Hp) as (Hin & Hlen & _).
  split; [exact Hin|]. apply Hlen. simpl. lia.
Defined.

(** A start time that is not a number, with two parts. *)
Lemma nan_start_time_witness :
  _generate (env 1) duo (request nan 2)
  = (priming_calls (env 1) duo (request nan 2) duo duo, inl ValueError).
Proof.
  apply (nan_start_time (env 1) duo (request nan 2)
           (mkSequenceSection nan 2) duo duo
           [duo_melody; duo_accompaniment] tt).
  - apply windowed_request.
  - reflexivity.
  - reflexivity.
  - reflexivity.
  - simpl. lia.
Defined.

(** One part and a start one second before the sequence. *)
Lemma negative_start_without_accompaniment_witness :
  _generate (env 1) solo (request (-1) 2)
  = (window_calls (env 1) solo (request (-1) 2),
     inl (SequenceGeneratorException msg_before_accompaniment
            [ArgFloat (-1); ArgFloat 0])).
Proof.
  apply (negative_start_without_accompaniment (env 1) solo
           (request (-1) 2) (mkSequenceSection (-1) 2) solo).
  - apply windowed_request.
  - intros n [<-|[<-|[]]]; discriminate.
  - reflexivity.
Defined.

(** A table of two configurations: two models are constructed, and the
    entry of the second key is bound to the second model. *)
Lemma generator_map_entries_witness :
  exists t entries,
    get_generator_map (StubClass.cls StubClass.two_configs)
    = (t, inr entries)
    /\ models_built (StubClass.cls StubClass.two_configs) t = [1; 2]
    /\ map fst entries = ["basic"; "lookback"]%string
    /\ exists p,
         Py.lookup "lookback"%string entries = Some p
         /\ bound_model p = 2.
Proof.
  exists (fst (get_generator_map (StubClass.cls StubClass.two_configs))).
  exists [("basic"%string,
           mkPartial (StubClass.cls StubClass.two_configs) 1
             "details"%string);
          ("lookback"%string,
           mkPartial (StubClass.cls StubClass.two_configs) 2
             "details"%string)].
  assert (H : get_generator_map (StubClass.cls StubClass.two_configs)
              = (fst (get_generator_map
                        (StubClass.cls StubClass.two_configs)),
                 inr [("basic"%string,
                       mkPartial (StubClass.cls StubClass.two_configs) 1
                         "details"%string);
                      ("lookback"%string,
                       mkPartial (StubClass.cls StubClass.two_configs) 2
                         "details"%string)]))
    by reflexivity.
  destruct (generator_map_entries _ _ _ H) as (_ & Hb & Hk & Hl).
  split; [exact H|]. split; [exact Hb|]. split; [exact Hk|].
  destruct (Hl "lookback"%string 2 eq_refl) as (p & Hp & Hm & _).
  exists p. split; [exact Hp|]. injection Hm as Hm. symmetry. exact Hm.
Defined.

(** A table whose second configuration is refused: the first model is
    constructed, the third is not. *)
Lemma generator_map_raises_witness :
  get_generator_map (StubClass.cls StubClass.bad_configs)
  = ([call_AccompanimentRnnModel (StubClass.cls StubClass.bad_configs) 1;
      call_AccompanimentRnnModel (StubClass.cls StubClass.bad_configs)
        (-1)],
     inl (Propagated "bad configuration")).
Proof.
  refine (proj1 (generator_map_raises
                   (StubClass.cls StubClass.bad_configs)
                   [("basic"%string, 1)] "broken"%string (-1)
                   [("lookback"%string, 2)] "bad configuration"%string
                   eq_refl _ eq_refl)).
  constructor; [exists 1; reflexivity|constructor].
Defined.

(** A generator made from the first entry, with a checkpoint. *)
Lemma registry_generators_witness :
  exists g,
    snd (call_partial (StubClass.cls StubClass.two_configs)
           (mkPartial (StubClass.cls StubClass.two_configs) 1
              "details"%string)
           (Some "checkpoint"%string) None) = inr g
    /\ _session g = None
    /\ generator_steps_per_quarter g = 4.
Proof.
  assert (H : get_generator_map (StubClass.cls StubClass.two_configs)
              = (fst (get_generator_map
                        (StubClass.cls StubClass.two_configs)),
                 inr [("basic"%string,
                       mkPartial (StubClass.cls StubClass.two_configs) 1
                         "details"%string);
                      ("lookback"%string,
                       mkPartial (StubClass.cls StubClass.two_configs) 2
                         "details"%string)]))
    by reflexivity.
  destruct (registry_generators _ _ _ "basic"%string
              (mkPartial (StubClass.cls StubClass.two_configs) 1
                 "details"%string)
              (Some "checkpoint"%string) None H (or_introl eq_refl))
    as (_ & _ & _ & Hg & _).
  eexists. split; [reflexivity|].
  destruct (Hg _ eq_refl) as (_ & Hs & _ & H4). split; assumption.
Defined.
